(** * mlog: the rotating file writer ([file_writer.go])

    A shallow embedding of [FileWriter] and of its [hourlyTicker], with
    the operating system, the wall clock and the alert webhook as an
    explicit world, and the properties of the writer proved on it. *)

From Stdlib Require Import ZArith Lia Bool Ascii String List.
From stdpp Require Import base option strings gmap.
Import ListNotations.

Local Open Scope string_scope.

(** ** Go values the writer handles *)

Module Go.

(** [error] values that reach the writer.  The first two are produced by
    [os.File] itself (methods on a nil receiver, and on a file that was
    closed); the others come from the system or the network. *)
Inductive error : Type :=
| ErrInvalid                 (* os.ErrInvalid: "invalid argument" *)
| ErrClosed                  (* os.ErrClosed: "file already closed" *)
| ErrExist                   (* EEXIST *)
| ErrNotExist                (* ENOENT *)
| ErrNotDir                  (* ENOTDIR *)
| ErrIsDir                   (* EISDIR *)
| ErrNotEmpty                (* ENOTEMPTY *)
| ErrLoop                    (* ELOOP: too many levels of symbolic links *)
| ErrPermission              (* EACCES *)
| ErrNoSpace                 (* ENOSPC *)
| ErrNet (what : string)     (* a failed HTTP round trip *)
| ErrRuntime (what : string). (* a run-time panic of the Go runtime *)

(** [os.IsExist]: EEXIST and ENOTEMPTY. *)
Definition IsExist (e : error) : bool :=
  match e with ErrExist | ErrNotEmpty => true | _ => false end.

(** A Go call either returns or panics. *)
Inductive outcome (A : Type) : Type :=
| Ret (a : A)
| Panic (e : error).
Arguments Ret {A} a.
Arguments Panic {A} e.

End Go.
Export Go.

(** ** Wall-clock time *)

Module Time.
Local Open Scope nat_scope.

(** A [time.Time] broken down into the fields the writer reads. *)
Record t : Type := mk {
  year : nat; month : nat; day : nat;
  hour : nat; minute : nat; second : nat
}.

(** The ranges of the fields of a value that [time.Now] returns (the
    year is printed on four digits up to 9999). *)
Definition valid (x : t) : bool :=
  (year x <? 100 * 100) && (1 <=? month x) && (month x <=? 12)
  && (1 <=? day x) && (day x <=? 31)
  && (hour x <? 24) && (minute x <? 60) && (second x <? 60).

Definition Hour (x : t) : nat := hour x.

(** Two instants lie in the same wall-clock hour. *)
Definition same_hour (a b : t) : bool :=
  (year a =? year b) && (month a =? month b) && (day a =? day b)
  && (hour a =? hour b).

Definition digit (n : nat) : ascii := ascii_of_nat (48 + n mod 10).

(** The decimal digits of [n], most significant first. *)
Fixpoint digits_fuel (fuel n : nat) (acc : string) : string :=
  match fuel with
  | O => acc
  | S f =>
      let acc' := String (digit n) acc in
      if n <? 10 then acc' else digits_fuel f (n / 10) acc'
  end.

Definition digits (n : nat) : string := digits_fuel (S n) n ""%string.

Fixpoint zeros (k : nat) : string :=
  match k with O => ""%string | S k' => String "0" (zeros k') end.

(** [appendInt] of package time: [x] in decimal, padded with zeros on
    the left up to [width]. *)
Definition appendInt (x width : nat) : string :=
  let ds := digits x in
  zeros (width - String.length ds) +:+ ds.

(** [t.Format("2006-01-02_15")]. *)
Definition Format_date_hour (x : t) : string :=
  (appendInt (year x) 4 +:+ "-" +:+ appendInt (month x) 2 +:+ "-"
   +:+ appendInt (day x) 2 +:+ "_" +:+ appendInt (hour x) 2)%string.

(** Reading a string of decimal digits back. *)
Definition digit_val (c : ascii) : option nat :=
  let n := nat_of_ascii c in
  if (48 <=? n) && (n <=? 57) then Some (n - 48) else None.

Fixpoint parse_from (acc : nat) (s : string) : option nat :=
  match s with
  | EmptyString => Some acc
  | String c s' =>
      match digit_val c with
      | Some d => parse_from (10 * acc + d) s'
      | None => None
      end
  end.

Definition parse (s : string) : option nat := parse_from 0 s.

End Time.

(** ** Paths (package path/filepath, Unix) *)

Module filepath.

Definition IsAbs (p : string) : bool :=
  match p with String "/" _ => true | _ => false end.

(** The names between the slashes of [p]. *)
Fixpoint split_slash (cur : string) (p : string) : list string :=
  match p with
  | "" => [cur]
  | String c p' =>
      if Ascii.eqb c "/" then cur :: split_slash "" p'
      else split_slash (cur +:+ String c "") p'
  end.

Fixpoint join_slash (l : list string) : string :=
  match l with
  | [] => ""
  | [x] => x
  | x :: l' => x +:+ "/" +:+ join_slash l'
  end.

(** The lexical pass of [Clean] over the names of a path: empty names
    and [.] are dropped, [..] removes the name before it, is dropped at
    the root and is kept in front of a relative path.  [out] is the
    output so far, last name first. *)
Fixpoint clean_names (rooted : bool) (out : list string) (names : list string)
  : list string :=
  match names with
  | [] => rev out
  | n :: names' =>
      if (n =? "") || (n =? ".") then clean_names rooted out names'
      else if n =? ".." then
        match out with
        | o :: out' =>
            if o =? ".." then clean_names rooted (n :: out) names'
            else clean_names rooted out' names'
        | [] =>
            if rooted then clean_names rooted [] names'
            else clean_names rooted [n] names'
        end
      else clean_names rooted (n :: out) names'
  end.

Definition Clean (p : string) : string :=
  if p =? "" then "."
  else
    let rooted := IsAbs p in
    let out := clean_names rooted [] (split_slash "" p) in
    if rooted then "/" +:+ join_slash out
    else match out with [] => "." | _ => join_slash out end.

(** [Join]: the elements from the first one that is not empty, joined
    with slashes and cleaned; the empty string when all are empty. *)
Fixpoint Join (elem : list string) : string :=
  match elem with
  | [] => ""
  | e :: rest => if e =? "" then Join rest else Clean (join_slash elem)
  end.

(** [Abs], given what [os.Getwd] returned. *)
Definition Abs (getwd : error + string) (p : string) : string * option error :=
  if IsAbs p then (Clean p, None)
  else match getwd with
       | inl err => ("", Some err)
       | inr wd => (Join [wd; p], None)
       end.

End filepath.

(** ** The world outside the writer *)

(** An [os.File].  The writer is the only holder of its file, so the
    object is kept by value in the writer; [fid] tells two opened files
    apart. *)
Record File : Type := mkFile {
  fid : nat;
  fname : string;
  fclosed : bool
}.

(** [SlackMsg]: the record marshalled into the body of the webhook. *)
Record SlackMsg : Type := mkSlackMsg {
  Text : string;
  Username : string;
  Channel : string
}.

Inductive node : Type :=
| Reg (content : string)
| Lnk (target : string)
| Dir.

(** The calls the writer makes to the system and to the network, in the
    order it makes them. *)
Inductive call : Type :=
| CallMkdirAll (path : string)
| CallLstat (path : string)
| CallRemove (path : string)
| CallSymlink (target link : string)
| CallOpenFile (path : string)
| CallWrite (f : option File) (data : string)
| CallSync (f : option File)
| CallClose (f : option File)
| CallPost (url : string) (body : SlackMsg).

Record World : Type := mkWorld {
  fs : gmap string node;       (* what is at each path *)
  next_fid : nat;              (* files opened so far *)
  calls : list call            (* calls made so far, oldest first *)
}.

(** What the surroundings answer during one call of the writer: the
    clock, the working directory (rooted by construction; [None] when
    the system cannot tell it) and, for each kind of call, the error the
    system imposes on it, if any. *)
Record Env : Type := mkEnv {
  now : Time.t;
  cwd : option (list string);
  mkdir_fault : option error;
  lstat_fault : option error;
  remove_fault : option error;
  symlink_fault : option error;
  open_fault : option error;
  write_fault : option error;
  sync_fault : option error;
  close_fault : option error;
  post_answer : error + nat     (* no round trip, or the status code *)
}.

Module os.

Definition record (c : call) (w : World) : World :=
  mkWorld (fs w) (next_fid w) (calls w ++ [c]).

Definition set_fs (m : gmap string node) (w : World) : World :=
  mkWorld m (next_fid w) (calls w).

Definition Getwd (env : Env) : error + string :=
  match cwd env with
  | None => inl ErrNotExist
  | Some names => inr ("/" +:+ filepath.join_slash names)
  end.

(** Where the target [t] of the link at path [p] leads: [t] itself when
    it is absolute, [t] from the directory of the link otherwise. *)
Definition link_target (p t : string) : string :=
  if filepath.IsAbs t then filepath.Clean t else filepath.Join [p; ".."; t].

(** The path reached from [p] by following the links in place, at most
    [hops] of them; [None] when there are more (ELOOP).  The path
    reached holds a file, a directory, or nothing.  A path is the name
    of what it holds: a link is followed where it is the last element
    of the path, and the directories on the way are not looked at (that
    one of them is missing or closed to the writer is a fault of the
    environment). *)
Fixpoint follow (hops : nat) (m : gmap string node) (p : string)
  : option string :=
  match m !! p with
  | Some (Lnk t) =>
      match hops with
      | O => None
      | S k => follow k m (link_target p t)
      end
  | _ => Some p
  end.

(** The system follows at most 40 links. *)
Definition resolve_links (m : gmap string node) (p : string) : option string :=
  follow 40 m p.

(** Some path of [m] lies in the directory [dir]. *)
Definition has_entries (m : gmap string node) (dir : string) : bool :=
  existsb (fun kv => String.prefix (dir +:+ "/") (fst kv)) (map_to_list m).

(** [os.MkdirAll]: the empty path cannot be made; a directory that is
    there (also behind links) is kept; a missing one is made; anything
    else at the path is an error. *)
Definition MkdirAll (env : Env) (path : string) (w : World)
  : option error * World :=
  let w := record (CallMkdirAll path) w in
  if path =? "" then (Some ErrNotExist, w)
  else match mkdir_fault env with
       | Some e => (Some e, w)
       | None =>
           match fs w !! path with
           | Some Dir => (None, w)
           | Some (Reg _) => (Some ErrNotDir, w)
           | Some (Lnk _) =>
               match resolve_links (fs w) path with
               | Some d =>
                   match fs w !! d with
                   | Some Dir => (None, w)
                   | Some (Reg _) => (Some ErrNotDir, w)
                   | Some (Lnk _) | None => (Some ErrExist, w)
                   end
               | None => (Some ErrExist, w)
               end
           | None => (None, set_fs (<[path := Dir]> (fs w)) w)
           end
       end.

Definition Lstat (env : Env) (path : string) (w : World)
  : option error * World :=
  let w := record (CallLstat path) w in
  match lstat_fault env with
  | Some e => (Some e, w)
  | None =>
      match fs w !! path with
      | Some _ => (None, w)
      | None => (Some ErrNotExist, w)
      end
  end.

(** [os.Remove]: a file, a link (the link itself) or an empty directory
    is removed; a directory with entries is left and is an error. *)
Definition Remove (env : Env) (path : string) (w : World)
  : option error * World :=
  let w := record (CallRemove path) w in
  match remove_fault env with
  | Some e => (Some e, w)
  | None =>
      match fs w !! path with
      | Some Dir =>
          if has_entries (fs w) path then (Some ErrNotEmpty, w)
          else (None, set_fs (delete path (fs w)) w)
      | Some _ => (None, set_fs (delete path (fs w)) w)
      | None => (Some ErrNotExist, w)
      end
  end.

Definition Symlink (env : Env) (target link : string) (w : World)
  : option error * World :=
  let w := record (CallSymlink target link) w in
  match symlink_fault env with
  | Some e => (Some e, w)
  | None =>
      match fs w !! link with
      | Some _ => (Some ErrExist, w)
      | None => (None, set_fs (<[link := Lnk target]> (fs w)) w)
      end
  end.

(** [os.OpenFile] with [O_CREATE|O_APPEND|O_RDWR] (no [O_NOFOLLOW], no
    [O_TRUNC]): links at the path are followed; a regular file at the
    end is opened as it is, a missing one is created empty there.  The
    file returned carries the path it was opened with. *)
Definition OpenFile (env : Env) (path : string) (w : World)
  : (error + File) * World :=
  let w := record (CallOpenFile path) w in
  match open_fault env with
  | Some e => (inl e, w)
  | None =>
      let f := mkFile (next_fid w) path false in
      match resolve_links (fs w) path with
      | None => (inl ErrLoop, w)
      | Some d =>
          match fs w !! d with
          | Some (Reg _) =>
              (inr f, mkWorld (fs w) (S (next_fid w)) (calls w))
          | None =>
              (inr f, mkWorld (<[d := Reg ""]> (fs w)) (S (next_fid w)) (calls w))
          | Some Dir => (inl ErrIsDir, w)
          | Some (Lnk _) => (inl ErrLoop, w)
          end
      end
  end.

(** The check every method of [*os.File] starts with: a nil receiver
    gives [ErrInvalid], a closed file [ErrClosed]. *)
Definition usable (f : option File) : error + File :=
  match f with
  | None => inl ErrInvalid
  | Some f => if fclosed f then inl ErrClosed else inr f
  end.

(** The path of the file that [f] writes to.  The file system is read
    through its paths, and a descriptor through the path it was opened
    with: the bytes go where that path leads, by the links in place,
    when they are written.  This is the file that was opened as long as
    no link on the way has been replaced since; of the calls of the
    writer only Remove and Symlink of the alias can replace one. *)
Definition data_path (m : gmap string node) (f : File) : option string :=
  resolve_links m (fname f).

(** [f.Write]: the bytes are appended to the file opened as [f] (when
    no path leads to it any more they are lost to the file system). *)
Definition Write (env : Env) (f : option File) (data : string) (w : World)
  : option error * World :=
  let w := record (CallWrite f data) w in
  match usable f with
  | inl e => (Some e, w)
  | inr f =>
      match write_fault env with
      | Some e => (Some e, w)
      | None =>
          match data_path (fs w) f with
          | Some d =>
              match fs w !! d with
              | Some (Reg c) =>
                  (None, set_fs (<[d := Reg (c +:+ data)]> (fs w)) w)
              | _ => (None, w)
              end
          | None => (None, w)
          end
      end
  end.

Definition Sync (env : Env) (f : option File) (w : World)
  : option error * World :=
  let w := record (CallSync f) w in
  match usable f with
  | inl e => (Some e, w)
  | inr _ => (sync_fault env, w)
  end.

(** [f.Close]: a usable file is closed whatever the system answers. *)
Definition Close (env : Env) (f : option File) (w : World)
  : option error * option File * World :=
  let w := record (CallClose f) w in
  match usable f with
  | inl e => (Some e, f, w)
  | inr f => (close_fault env, Some (mkFile (fid f) (fname f) true), w)
  end.

End os.

(** ** UTF-8, as package unicode/utf8 reads it *)

Module utf8.
Local Open Scope nat_scope.

Definition byte (c : ascii) : nat := nat_of_ascii c.

Definition between (lo hi : nat) (c : ascii) : bool :=
  (lo <=? byte c) && (byte c <=? hi).

(** A continuation byte, 0x80 to 0xBF. *)
Definition cont (c : ascii) : bool := between 128 191 c.

(** [DecodeRuneInString] on the byte [c] followed by [rest]: the size of
    the encoding that starts there, or [None] when there is none (the
    decoder then answers RuneError with size 1).  The ranges are those
    of the tables [first] and [acceptRanges]. *)
Definition rune_size (c : ascii) (rest : string) : option nat :=
  let b := byte c in
  if b <? 128 then Some 1
  else if b <? 194 then None                       (* 0x80..0xC1 *)
  else if b <? 224 then                            (* 0xC2..0xDF *)
    match rest with
    | String c1 _ => if cont c1 then Some 2 else None
    | _ => None
    end
  else if b <? 240 then                            (* 0xE0..0xEF *)
    let lo := if b =? 224 then 160 else 128 in
    let hi := if b =? 237 then 159 else 191 in
    match rest with
    | String c1 (String c2 _) =>
        if between lo hi c1 && cont c2 then Some 3 else None
    | _ => None
    end
  else if b <? 245 then                            (* 0xF0..0xF4 *)
    let lo := if b =? 240 then 144 else 128 in
    let hi := if b =? 244 then 143 else 191 in
    match rest with
    | String c1 (String c2 (String c3 _)) =>
        if between lo hi c1 && cont c2 && cont c3 then Some 4 else None
    | _ => None
    end
  else None.                                       (* 0xF5..0xFF *)

(** The encoding of U+FFFD. *)
Definition replacement : string :=
  String (ascii_of_nat 239) (String (ascii_of_nat 191)
    (String (ascii_of_nat 189) EmptyString)).

(** [ValidString]; [skip] bytes of the current encoding are still to
    pass. *)
Fixpoint valid_from (skip : nat) (s : string) : bool :=
  match s with
  | EmptyString => true
  | String c rest =>
      match skip with
      | S k => valid_from k rest
      | O =>
          match rune_size c rest with
          | Some sz => valid_from (sz - 1) rest
          | None => false
          end
      end
  end.

Definition ValidString (s : string) : bool := valid_from 0 s.

(** The string with every byte that starts no encoding replaced by
    U+FFFD, one replacement for each such byte. *)
Fixpoint coerce_from (skip : nat) (s : string) : string :=
  match s with
  | EmptyString => EmptyString
  | String c rest =>
      match skip with
      | S k => String c (coerce_from k rest)
      | O =>
          match rune_size c rest with
          | Some sz => String c (coerce_from (sz - 1) rest)
          | None => (replacement +:+ coerce_from 0 rest)%string
          end
      end
  end.

Definition coerce (s : string) : string := coerce_from 0 s.

End utf8.

(** What a JSON decoder reads back from the encoding of [msg] by
    [json.Marshal]: the escapes are undone, and what is left of the
    encoder is that it writes U+FFFD for every byte of a string that is
    not part of valid UTF-8. *)
Definition json_body (msg : SlackMsg) : SlackMsg :=
  mkSlackMsg (utf8.coerce (Text msg)) (utf8.coerce (Username msg))
    (utf8.coerce (Channel msg)).

(** [json.Marshal] of a [SlackMsg] cannot fail (three string fields);
    the body is kept as the record a decoder reads back from it. *)
Definition json_Marshal (msg : SlackMsg) : error + SlackMsg :=
  inr (json_body msg).

(** [http.DefaultClient.Post]: the attempt is recorded; the response
    (its status code) or the error is the surroundings'. *)
Definition http_Post (env : Env) (url : string) (body : SlackMsg) (w : World)
  : (option nat * option error) * World :=
  (match post_answer env with
   | inl e => (None, Some e)
   | inr status => (Some status, None)
   end, os.record (CallPost url body) w).

(** ** The hourly ticker *)

Module hourlyTicker.

(** Where the goroutine started by [startTimer] stands.  The channel
    [C] is unbuffered, so it has no content of its own: a value is
    being sent exactly when the goroutine is blocked in [ht.C <- t]. *)
Inductive task : Type :=
| Selecting (hour : nat)               (* in the select of the loop *)
| Sending (t : Time.t) (hour : nat)    (* blocked in the send on C *)
| Returned.                            (* took the quit case *)

Record t : Type := mk {
  state : task;
  quit_closed : bool                   (* quitCh has been closed *)
}.

(** [startTimer]: the goroutine reads the hour when it starts, at
    [start], and enters its loop. *)
Definition startTimer (start : Time.t) : task :=
  Selecting (Time.Hour start).

(** [newHourlyTicker]: both channels are made, open and empty, and the
    goroutine is started. *)
Definition newHourlyTicker (start : Time.t) : t :=
  mk (startTimer start) false.

(** One case of the select taken by the goroutine. *)
Inductive event : Type :=
| Tick (tm : Time.t)     (* case t := <-ticker.C *)
| Quit.                  (* case <-ht.quitCh *)

(** The goroutine takes [e]; [None] when it cannot: the quit case needs
    a closed [quitCh], and a goroutine blocked in its send, or one that
    returned, takes no case at all. *)
Definition step (e : event) (ht : t) : option t :=
  match state ht, e with
  | Selecting hour, Quit =>
      if quit_closed ht then Some (mk Returned (quit_closed ht)) else None
  | Selecting hour, Tick tm =>
      if negb (Time.Hour tm =? hour)%nat
      then Some (mk (Sending tm hour) (quit_closed ht))
      else Some ht
  | _, _ => None
  end.

Fixpoint run (es : list event) (ht : t) : option t :=
  match es with
  | [] => Some ht
  | e :: es' =>
      match step e ht with
      | Some ht' => run es' ht'
      | None => None
      end
  end.

(** The receive of [checkFile]'s select, which has a default case: it
    succeeds exactly when the goroutine is blocked in its send; the
    goroutine then stores the hour of the value it sent and goes back
    to its select. *)
Definition receive (ht : t) : option Time.t * t :=
  match state ht with
  | Sending tm _ => (Some tm, mk (Selecting (Time.Hour tm)) (quit_closed ht))
  | _ => (None, ht)
  end.

(** [stop]: closing a channel that is closed panics. *)
Definition stop (ht : t) : outcome unit * t :=
  if quit_closed ht
  then (Panic (ErrRuntime "close of closed channel"), ht)
  else (Ret tt, mk (state ht) true).

Definition pending (ht : t) : bool :=
  match state ht with Sending _ _ => true | _ => false end.

End hourlyTicker.

(** ** The file writer *)

Definition Level : Type := Z.

Record FileWriter : Type := mkFileWriter {
  level : Level;
  filepath : string;
  fd : option File;              (* nil before the first file is opened *)
  url : string;
  slack : SlackMsg;
  ticker : hourlyTicker.t        (* the field hourlyTicker *)
}.

(** The methods run on the writer and the world, and return or panic. *)
Definition M (A : Type) : Type :=
  FileWriter * World -> outcome A * (FileWriter * World).

Definition ret {A} (a : A) : M A := fun s => (Ret a, s).

Definition bind {A B} (m : M A) (k : A -> M B) : M B :=
  fun s =>
    match m s with
    | (Ret a, s') => k a s'
    | (Panic e, s') => (Panic e, s')
    end.

Definition panic {A} (e : error) : M A := fun s => (Panic e, s).

Declare Scope go_scope.
Delimit Scope go_scope with go.
Notation "x <- m ;; k" := (bind m (fun x => k))
  (at level 100, m at level 99, k at level 100, right associativity) : go_scope.
Notation "m ;;; k" := (bind m (fun _ => k))
  (at level 100, k at level 100, right associativity) : go_scope.

Definition get : M FileWriter := fun s => (Ret (fst s), s).

(** Assignments to the fields of the writer. *)
Definition upd_filepath (p : string) (fw : FileWriter) : FileWriter :=
  mkFileWriter (level fw) p (fd fw) (url fw) (slack fw) (ticker fw).

Definition upd_fd (f : option File) (fw : FileWriter) : FileWriter :=
  mkFileWriter (level fw) (filepath fw) f (url fw) (slack fw) (ticker fw).

Definition upd_level (l : Level) (fw : FileWriter) : FileWriter :=
  mkFileWriter l (filepath fw) (fd fw) (url fw) (slack fw) (ticker fw).

Definition upd_ticker (ht : hourlyTicker.t) (fw : FileWriter) : FileWriter :=
  mkFileWriter (level fw) (filepath fw) (fd fw) (url fw) (slack fw) ht.

Definition modify (f : FileWriter -> FileWriter) : M unit :=
  fun s => (Ret tt, (f (fst s), snd s)).

Definition set_filepath (p : string) : M unit := modify (upd_filepath p).
Definition set_fd (f : option File) : M unit := modify (upd_fd f).
Definition set_level (l : Level) : M unit := modify (upd_level l).
Definition set_ticker (ht : hourlyTicker.t) : M unit := modify (upd_ticker ht).

(** A call that only touches the world. *)
Definition sys {A} (f : World -> A * World) : M A :=
  fun '(fw, w) => let '(a, w') := f w in (Ret a, (fw, w')).

(** [NewFileWriter]; the goroutine of the ticker starts at [start]. *)
Definition NewFileWriter (start : Time.t) (filepath name url channel : string)
  : FileWriter :=
  mkFileWriter 0%Z filepath None url (mkSlackMsg "" name channel)
    (hourlyTicker.newHourlyTicker start).

Section Methods.

(** [LevelError] is declared with the levels, outside this file. *)
Variable LevelError : Level.
Variable env : Env.

Local Open Scope go_scope.

Definition Init : M (option error) :=
  fw <- get ;;
  (if (String.length (filepath fw) =? 0)%nat then set_filepath "./" else ret tt) ;;;
  fw <- get ;;
  (if negb (filepath.IsAbs (filepath fw))
   then set_filepath (fst (filepath.Abs (os.Getwd env) (filepath fw)))
   else ret tt) ;;;
  fw <- get ;;
  err <- sys (os.MkdirAll env (filepath fw)) ;;
  match err with
  | Some e => panic e
  | None =>
      let logFile := "text_" +:+ Time.Format_date_hour (now env) +:+ ".log" in
      let linkFile := filepath.Join [filepath fw; "text.log"] in
      err <- sys (os.Lstat env linkFile) ;;
      (if match err with None => true | Some e => IsExist e end
       then sys (os.Remove env linkFile) ;;; ret tt
       else ret tt) ;;;
      sys (os.Symlink env logFile linkFile) ;;;
      r <- sys (os.OpenFile env (filepath.Join [filepath fw; logFile])) ;;
      match r with
      | inl err => ret (Some err)
      | inr f => set_fd (Some f) ;;; ret None
      end
  end.

Definition SetLevel (l : Level) : M unit := set_level l.

Definition GetLevel : M Level := fw <- get ;; ret (level fw).

Definition postToSlack (errMsg : string) : M (option error) :=
  fw <- get ;;
  let msg := mkSlackMsg errMsg (Username (slack fw)) (Channel (slack fw)) in
  match json_Marshal msg with
  | inl err => ret (Some err)
  | inr postData =>
      r <- sys (http_Post env (url fw) postData) ;;
      (* the error is formatted with fmt.Errorf and the result dropped *)
      ret (snd r)
  end.

Definition fd_Sync : M (option error) :=
  fw <- get ;; sys (os.Sync env (fd fw)).

Definition fd_Close : M (option error) :=
  fw <- get ;;
  r <- sys (fun w => let '(e, f, w') := os.Close env (fd fw) w in ((e, f), w')) ;;
  set_fd (snd r) ;;; ret (fst r).

Definition checkFile : M unit :=
  fw <- get ;;
  let '(got, ht) := hourlyTicker.receive (ticker fw) in
  set_ticker ht ;;;
  match got with
  | Some _ => fd_Sync ;;; fd_Close ;;; Init ;;; ret tt
  | None => ret tt
  end.

Definition Write (msg : string) (lvl : Level) : M (option error) :=
  (if (LevelError <=? lvl)%Z
   then err <- postToSlack msg ;; ret tt   (* err only goes to fmt.Errorf *)
   else ret tt) ;;;
  checkFile ;;;
  fw <- get ;;
  sys (os.Write env (fd fw) msg).

Definition WriteToSlack (msg : string) (lvl : Level) : M (option error) :=
  ret None.

Definition Flush : M (option error) := fd_Sync.

Definition Close : M (option error) := fd_Close.

End Methods.

(** ** Reading runs of the writer *)

Local Open Scope list_scope.

Definition State : Type := (FileWriter * World)%type.

(** The alert attempts among some calls: endpoint and body of each POST. *)
Definition posts_of (cs : list call) : list (string * SlackMsg) :=
  flat_map (fun c => match c with CallPost u b => [(u, b)] | _ => [] end) cs.

(** The calls made between world [w] and a later world [w']. *)
Definition made (w w' : World) : list call :=
  drop (length (calls w)) (calls w').

Definition is_post (c : call) : bool :=
  match c with CallPost _ _ => true | _ => false end.

(** [w'] is [w] after some more calls, all of them satisfying [P]. *)
Definition grows (P : call -> bool) (w w' : World) : Prop :=
  exists d, calls w' = calls w ++ d /\ forallb P d = true.

Definition not_post (c : call) : bool := negb (is_post c).

(** The relation on states: the world only grows by calls satisfying [P]. *)
Definition world_grows (P : call -> bool) (s s' : State) : Prop :=
  grows P (snd s) (snd s').

(** Every run of [m] relates the state before to the state after. *)
Definition always {A} (R : State -> State -> Prop) (m : M A) : Prop :=
  forall s, R s (snd (m s)).


(** The alert that [Write] forwards for [msg]. *)
Definition alert_of (fw : FileWriter) (msg : string) : string * SlackMsg :=
  (url fw, json_body (mkSlackMsg msg (Username (slack fw)) (Channel (slack fw)))).

(** The alert as the specification words it: the message and the
    identity as they are. *)
Definition alert_as_given (fw : FileWriter) (msg : string) : string * SlackMsg :=
  (url fw, mkSlackMsg msg (Username (slack fw)) (Channel (slack fw))).

(** The state in which [Write] reaches its boundary check. *)
Definition after_alert (LevelError : Level) (msg : string) (lvl : Level)
    (s : State) : State :=
  if (LevelError <=? lvl)%Z
  then (fst s, os.record (CallPost (url (fst s)) (snd (alert_of (fst s) msg))) (snd s))
  else s.

(** A writer in its surroundings, for concrete runs: started at 14:00
    on 7 March 2024 in /srv/app with base directory "logs". *)
Module Sample.

Definition at_ (h m s : nat) : Time.t := Time.mk 2024 3 7 h m s.

Definition env_at (t : Time.t) : Env :=
  mkEnv t (Some ["srv"; "app"]) None None None None None None None None (inr 200).

Definition env : Env := env_at (at_ 14 59 59).

Definition w : World := mkWorld ∅ 0 [].

Definition fw : FileWriter :=
  NewFileWriter (at_ 14 0 0) "logs" "logbot" "http://hooks.example/T1" "#ops".

(** The system refuses to make directories. *)
Definition env_no_mkdir (t : Time.t) : Env :=
  mkEnv t (Some ["srv"; "app"]) (Some ErrPermission) None None None None
    None None None (inr 200).

(** The system refuses to open files. *)
Definition env_no_open (t : Time.t) : Env :=
  mkEnv t (Some ["srv"; "app"]) None None None None (Some ErrPermission)
    None None None (inr 200).

(** The system refuses to remove directory entries. *)
Definition env_no_remove (t : Time.t) : Env :=
  mkEnv t (Some ["srv"; "app"]) None None (Some ErrPermission) None None
    None None None (inr 200).

(** The disk is full and the webhook answers as given. *)
Definition env_disk_full (t : Time.t) (ans : error + nat) : Env :=
  mkEnv t (Some ["srv"; "app"]) None None None None None
    (Some ErrNoSpace) None None ans.

(** The system cannot tell the working directory. *)
Definition env_no_cwd (t : Time.t) : Env :=
  mkEnv t None None None None None None None None None (inr 200).

End Sample.

(** C1 as the specification words it: the level stored by [SetLevel]
    decides whether [Write] forwards an alert. *)
Definition alerts_by_stored_level (LevelError : Level) : Prop :=
  forall env fw w msg lvl thr,
    let s1 := snd (SetLevel thr (fw, w)) in
    let s2 := snd (Write LevelError env msg lvl s1) in
    posts_of (made (snd s1) (snd s2)) =
    if (lvl <? thr)%Z then [] else [alert_as_given fw msg].

(** C2 as the specification words it.  The goroutine on its own (no
    [Write] receives from [C]) can be cancelled: it reaches its return. *)
Definition cancellable (ht : hourlyTicker.t) : Prop :=
  exists es ht',
    hourlyTicker.run es ht = Some ht'
    /\ hourlyTicker.state ht' = hourlyTicker.Returned.

Definition send_never_blocks : Prop :=
  forall start es ht,
    hourlyTicker.run es (hourlyTicker.newHourlyTicker start) = Some ht ->
    cancellable (snd (hourlyTicker.stop ht)).

(** C9 as the specification words it: a second [stop] returns and
    changes nothing. *)
Definition stop_idempotent (ht : hourlyTicker.t) : Prop :=
  let ht1 := snd (hourlyTicker.stop ht) in
  hourlyTicker.stop ht1 = (Ret tt, ht1).

(** ** The methods in direct style

    The same computations as [Init] and [checkFile], written as plain
    functions of the state; they are proved equal to the methods below
    and make the runs easier to read. *)

(** The base directory as [Init] resolves it. *)
Definition resolve (env : Env) (p : string) : string :=
  let p1 := if (String.length p =? 0)%nat then "./" else p in
  if negb (filepath.IsAbs p1)
  then fst (filepath.Abs (os.Getwd env) p1)
  else p1.

Definition logFile_of (env : Env) : string :=
  "text_" +:+ Time.Format_date_hour (now env) +:+ ".log".

(** The world after [Init] has dealt with the alias, from the world
    [w1] after the directory was made. *)
Definition relink (env : Env) (linkFile : string) (w1 : World) : World :=
  let '(err, w2) := os.Lstat env linkFile w1 in
  let w3 :=
    if match err with None => true | Some e => IsExist e end
    then snd (os.Remove env linkFile w2)
    else w2 in
  snd (os.Symlink env (logFile_of env) linkFile w3).

(** The results of [Lstat] on which [Init] removes the alias: nil,
    EEXIST and ENOTEMPTY. *)
Definition found_by_Lstat (r : option error) : bool :=
  match r with
  | None | Some ErrExist | Some ErrNotEmpty => true
  | Some _ => false
  end.

(** The world in which [Init] calls [Symlink], from the world [w1]
    after the directory was made. *)
Definition before_Symlink (env : Env) (linkFile : string) (w1 : World) : World :=
  let '(err, w2) := os.Lstat env linkFile w1 in
  if match err with None => true | Some e => IsExist e end
  then snd (os.Remove env linkFile w2)
  else w2.

Definition Init_run (env : Env) (s : State) : outcome (option error) * State :=
  let p := resolve env (filepath (fst s)) in
  let fw1 := upd_filepath p (fst s) in
  match os.MkdirAll env p (snd s) with
  | (Some e, w1) => (Panic e, (fw1, w1))
  | (None, w1) =>
      let w4 := relink env (filepath.Join [p; "text.log"]) w1 in
      match os.OpenFile env (filepath.Join [p; logFile_of env]) w4 with
      | (inl e, w5) => (Ret (Some e), (fw1, w5))
      | (inr f, w5) => (Ret None, (upd_fd (Some f) fw1, w5))
      end
  end.

(** The state in which a rotation reaches [Init]: the event received,
    the descriptor synced and closed. *)
Definition before_reinit (env : Env) (s : State) : State :=
  let fw := upd_ticker (snd (hourlyTicker.receive (ticker (fst s)))) (fst s) in
  let w1 := snd (os.Sync env (fd fw) (snd s)) in
  let '(_, f, w2) := os.Close env (fd fw) w1 in
  (upd_fd f fw, w2).

Definition checkFile_run (env : Env) (s : State) : outcome unit * State :=
  if hourlyTicker.pending (ticker (fst s))
  then match Init_run env (before_reinit env s) with
       | (Ret _, s') => (Ret tt, s')
       | (Panic e, s') => (Panic e, s')
       end
  else (Ret tt, s).

(** The goroutine of the ticker takes the cases [es] behind the back of
    the writer. *)
Definition background (es : list hourlyTicker.event) (s : State) : State :=
  match hourlyTicker.run es (ticker (fst s)) with
  | Some ht => (upd_ticker ht (fst s), snd s)
  | None => s
  end.

(** What [os.File] answers on the descriptor once [Close] was called. *)
Definition closed_error (f : option File) : error :=
  match f with None => ErrInvalid | Some _ => ErrClosed end.

(** The descriptor after [Close]. *)
Definition closed_fd (f : option File) : option File :=
  match f with
  | None => None
  | Some f => Some (mkFile (fid f) (fname f) true)
  end.

(** C3 as the specification words it: [Write] after [Close] returns an
    error. *)
Definition Write_after_Close_rejected (LevelError : Level) (envC envW : Env)
    (s : State) (msg : string) (lvl : Level) : Prop :=
  exists e s',
    Write LevelError envW msg lvl (snd (Close envC s)) = (Ret (Some e), s').


(** C5 as the specification words it: when the re-initialisation of a
    rotation fails, the triggering [Write] returns an error and the
    writer is left with a descriptor it can use. *)
Definition rotation_failure_handled (LevelError : Level) (env : Env)
    (s : State) (msg : string) (lvl : Level) : Prop :=
  forall e s2,
    Init env (before_reinit env (after_alert LevelError msg lvl s))
    = (Ret (Some e), s2) ->
    exists e' s' f,
      Write LevelError env msg lvl s = (Ret (Some e'), s')
      /\ os.usable (fd (fst s')) = inr f.

(** C6 as the specification words it: when the directory cannot be
    made, [Init] returns an error. *)
Definition Init_returns_mkdir_error (env : Env) (s : State) : Prop :=
  is_Some (fst (os.MkdirAll env (resolve env (filepath (fst s))) (snd s))) ->
  exists e s', Init env s = (Ret (Some e), s').

(** A run of the sample writer: opened at 14:59:59, and then the tick
    of 15:00:00 taken by the goroutine of its ticker. *)
Module Scenario.

Definition opened : State := snd (Init Sample.env (Sample.fw, Sample.w)).

Definition at_boundary : State :=
  background [hourlyTicker.Tick (Sample.at_ 15 0 0)] opened.

End Scenario.

(** The case [e] of the goroutine carries no other hour than [h]. *)
Definition stays_in_hour (h : nat) (e : hourlyTicker.event) : bool :=
  match e with
  | hourlyTicker.Tick tm => (Time.Hour tm =? h)%nat
  | hourlyTicker.Quit => true
  end.

(** The tick [e] is read in the wall-clock hour of [t]. *)
Definition tick_in_hour_of (t : Time.t) (e : hourlyTicker.event) : bool :=
  match e with
  | hourlyTicker.Tick tm => Time.same_hour t tm
  | hourlyTicker.Quit => true
  end.

(** C7 as the specification words it: of two consecutive calls of
    [Write] in the same wall-clock hour (the goroutine of the ticker
    taking ticks of that hour in between), the second does not rotate:
    its boundary check leaves the descriptor as it is. *)
Definition no_rotation_within_hour (LevelError : Level) : Prop :=
  forall env1 env2 es s m1 l1 m2 l2,
    Time.same_hour (now env1) (now env2) = true ->
    forallb (tick_in_hour_of (now env1)) es = true ->
    let s1 := background es (snd (Write LevelError env1 m1 l1 s)) in
    fd (fst (snd (checkFile env2 (after_alert LevelError m2 l2 s1))))
    = fd (fst s1).

(** C8 as the specification words it: after a successful [Init] the
    alias [text.log] of the base directory refers to the hourly file
    that was opened. *)
Definition Init_recreates_alias (env : Env) (s : State) : Prop :=
  forall s',
    Init env s = (Ret None, s') ->
    fs (snd s') !! filepath.Join [filepath (fst s'); "text.log"]
    = Some (Lnk (logFile_of env)).

(** The files left by a run of the sample writer opened at 13:10:00. *)
Definition left_at_13 : World :=
  snd (snd (Init (Sample.env_at (Sample.at_ 13 10 0)) (Sample.fw, Sample.w))).

(** The path a call creates or looks at is absolute. *)
Definition abs_call (c : call) : bool :=
  match c with
  | CallMkdirAll p | CallLstat p | CallRemove p | CallOpenFile p
  | CallSymlink _ p => filepath.IsAbs p
  | _ => true
  end.

(** C10 as the specification words it: after [Init] the stored base
    directory is absolute. *)
Definition Init_makes_filepath_absolute (env : Env) (s : State) : Prop :=
  filepath.IsAbs (filepath (fst (snd (Init env s)))) = true.

(** What the methods never assign after [NewFileWriter] and [SetLevel]:
    the level, the endpoint and the identity of the alerts. *)
Definition config (fw : FileWriter) : Level * string * SlackMsg :=
  (level fw, url fw, slack fw).

(** Two worlds hold the same files (and have opened as many): they
    differ at most in the calls recorded. *)
Definition same_files (w1 w2 : World) : Prop :=
  fs w1 = fs w2 /\ next_fid w1 = next_fid w2.

(** ** Sequences of calls

    What a user of the writer does with it, one step at a time: a call
    of a method, or cases taken meanwhile by the goroutine of the
    ticker.  After a panic of [Init] the sequence goes on from the state
    the panic left (the caller recovered). *)
Inductive action : Type :=
| DoInit (env : Env)
| DoWrite (env : Env) (msg : string) (lvl : Level)
| DoWriteToSlack (msg : string) (lvl : Level)
| DoFlush (env : Env)
| DoClose (env : Env)
| DoSetLevel (l : Level)
| DoGetLevel
| Meanwhile (es : list hourlyTicker.event).

Definition act (LevelError : Level) (a : action) (s : State) : State :=
  match a with
  | DoInit env => snd (Init env s)
  | DoWrite env msg lvl => snd (Write LevelError env msg lvl s)
  | DoWriteToSlack msg lvl => snd (WriteToSlack msg lvl s)
  | DoFlush env => snd (Flush env s)
  | DoClose env => snd (Close env s)
  | DoSetLevel l => snd (SetLevel l s)
  | DoGetLevel => snd (GetLevel s)
  | Meanwhile es => background es s
  end.

Definition acts (LevelError : Level) (l : list action) (s : State) : State :=
  fold_left (fun s a => act LevelError a s) l s.

(** The alerts due for a sequence of calls: one for each [Write] of a
    message at or above [LevelError], in call order. *)
Definition alerts_due (LevelError : Level) (fw : FileWriter) (l : list action)
  : list (string * SlackMsg) :=
  flat_map
    (fun a =>
       match a with
       | DoWrite _ msg lvl =>
           if (LevelError <=? lvl)%Z then [alert_of fw msg] else []
       | _ => []
       end) l.

(** The goroutine of the ticker is running: [quitCh] is open and the
    goroutine has not returned. *)
Definition running (ht : hourlyTicker.t) : Prop :=
  hourlyTicker.quit_closed ht = false
  /\ hourlyTicker.state ht <> hourlyTicker.Returned.

(** The calls [Init] may make. *)
Definition Init_call (c : call) : bool :=
  match c with
  | CallMkdirAll _ | CallLstat _ | CallRemove _ | CallSymlink _ _
  | CallOpenFile _ => true
  | _ => false
  end.

(** * Properties *)

Section Runs.

Context (R : State -> State -> Prop) `{!PreOrder R}.

Lemma always_ret {A} (a : A) : always R (ret a).
Proof. intros s. simpl. reflexivity. Qed.

Lemma always_panic {A} e : always R (@panic A e).
Proof. intros s. simpl. reflexivity. Qed.

Lemma always_bind {A B} (m : M A) (k : A -> M B) :
  always R m -> (forall a, always R (k a)) -> always R (bind m k).
Proof.
  intros Hm Hk s. unfold bind. specialize (Hm s).
  destruct (m s) as [[a|e] s'] eqn:E; simpl in *.
  - etransitivity; [exact Hm | apply Hk].
  - exact Hm.
Qed.

Lemma always_get : always R get.
Proof. intros s. simpl. reflexivity. Qed.

End Runs.

Lemma grows_refl P w : grows P w w.
Proof. exists []. split; [by rewrite app_nil_r | done]. Qed.

Lemma grows_trans P w1 w2 w3 : grows P w1 w2 -> grows P w2 w3 -> grows P w1 w3.
Proof.
  intros (d1 & E1 & H1) (d2 & E2 & H2). exists (d1 ++ d2). split.
  - by rewrite E2, E1, app_assoc.
  - by rewrite forallb_app, H1, H2.
Qed.

Lemma grows_record P c w : P c = true -> grows P w (os.record c w).
Proof. intros H. exists [c]. split; [done | by simpl; rewrite H]. Qed.

#[local] Instance world_grows_preorder P : PreOrder (world_grows P).
Proof.
  split.
  - intros s. apply grows_refl.
  - intros s1 s2 s3. apply grows_trans.
Qed.

Lemma made_app w w' d : calls w' = calls w ++ d -> made w w' = d.
Proof. intros E. unfold made. rewrite E. apply drop_app_length. Qed.

Lemma posts_of_app a b : posts_of (a ++ b) = posts_of a ++ posts_of b.
Proof. unfold posts_of. apply flat_map_app. Qed.

Lemma posts_of_none d : forallb not_post d = true -> posts_of d = [].
Proof.
  induction d as [|c d IH]; [done|]. simpl. intros H.
  apply andb_prop in H as [Hc Hd]. destruct c; try discriminate; simpl; auto.
Qed.

(** *** What each call adds to the world *)

Lemma always_sys {A} P (f : World -> A * World) :
  (forall w, grows P w (snd (f w))) -> always (world_grows P) (sys f).
Proof.
  intros H [fw w]. unfold sys, world_grows. specialize (H w).
  destruct (f w) as [a w']. exact H.
Qed.

Lemma always_set_filepath P p : always (world_grows P) (set_filepath p).
Proof. intros [fw w]. apply grows_refl. Qed.

Lemma always_set_fd P f : always (world_grows P) (set_fd f).
Proof. intros [fw w]. apply grows_refl. Qed.

Lemma always_set_ticker P ht : always (world_grows P) (set_ticker ht).
Proof. intros [fw w]. apply grows_refl. Qed.

Lemma MkdirAll_grows P env p w :
  P (CallMkdirAll p) = true -> grows P w (snd (os.MkdirAll env p w)).
Proof.
  intros H. unfold os.MkdirAll. repeat case_match; simpl;
    by apply (grows_record P (CallMkdirAll p) w).
Qed.

Lemma Lstat_grows P env p w :
  P (CallLstat p) = true -> grows P w (snd (os.Lstat env p w)).
Proof.
  intros H. unfold os.Lstat. repeat case_match; simpl;
    by apply (grows_record P (CallLstat p) w).
Qed.

Lemma Remove_grows P env p w :
  P (CallRemove p) = true -> grows P w (snd (os.Remove env p w)).
Proof.
  intros H. unfold os.Remove. repeat case_match; simpl;
    by apply (grows_record P (CallRemove p) w).
Qed.

Lemma Symlink_grows P env t l w :
  P (CallSymlink t l) = true -> grows P w (snd (os.Symlink env t l w)).
Proof.
  intros H. unfold os.Symlink. repeat case_match; simpl;
    by apply (grows_record P (CallSymlink t l) w).
Qed.

Lemma OpenFile_grows P env p w :
  P (CallOpenFile p) = true -> grows P w (snd (os.OpenFile env p w)).
Proof.
  intros H. unfold os.OpenFile. repeat case_match; simpl;
    by apply (grows_record P (CallOpenFile p) w).
Qed.

Lemma Write_grows P env f data w :
  P (CallWrite f data) = true -> grows P w (snd (os.Write env f data w)).
Proof.
  intros H. unfold os.Write. repeat case_match; simpl;
    by apply (grows_record P (CallWrite f data) w).
Qed.

Lemma Sync_grows P env f w :
  P (CallSync f) = true -> grows P w (snd (os.Sync env f w)).
Proof.
  intros H. unfold os.Sync. repeat case_match; simpl;
    by apply (grows_record P (CallSync f) w).
Qed.

Lemma Close_grows P env f w :
  P (CallClose f) = true -> grows P w (snd (os.Close env f w)).
Proof.
  intros H. unfold os.Close. repeat case_match; simpl;
    by apply (grows_record P (CallClose f) w).
Qed.

(** *** No alert outside [postToSlack] *)

Ltac step_always :=
  first
    [ apply always_bind; [typeclasses eauto | | intros ?]
    | apply always_ret; typeclasses eauto
    | apply always_panic; typeclasses eauto
    | apply always_get; typeclasses eauto
    | apply always_set_filepath
    | apply always_set_fd
    | apply always_set_ticker ].

Lemma Init_no_post env : always (world_grows not_post) (Init env).
Proof.
  unfold Init.
  repeat (first [ step_always | case_match ]);
    apply always_sys; intros w.
  all: first [ by apply MkdirAll_grows | by apply Lstat_grows
             | by apply Remove_grows | by apply Symlink_grows
             | by apply OpenFile_grows ].
Qed.

Lemma fd_Sync_no_post env : always (world_grows not_post) (fd_Sync env).
Proof.
  unfold fd_Sync. repeat step_always.
  apply always_sys. intros w. by apply Sync_grows.
Qed.

Lemma fd_Close_no_post env : always (world_grows not_post) (fd_Close env).
Proof.
  unfold fd_Close. apply always_bind; [typeclasses eauto | step_always |].
  intros fw. repeat step_always.
  apply always_sys. intros w.
  pose proof (Close_grows not_post env (fd fw) w eq_refl) as H.
  destruct (os.Close env (fd fw) w) as [[e f] w']. exact H.
Qed.

Lemma checkFile_no_post env : always (world_grows not_post) (checkFile env).
Proof.
  unfold checkFile. apply always_bind; [typeclasses eauto | step_always |].
  intros fw. destruct (hourlyTicker.receive (ticker fw)) as [got ht].
  apply always_bind; [typeclasses eauto | apply always_set_ticker | intros _].
  destruct got; [| step_always].
  apply always_bind; [typeclasses eauto | apply fd_Sync_no_post | intros _].
  apply always_bind; [typeclasses eauto | apply fd_Close_no_post | intros _].
  apply always_bind; [typeclasses eauto | apply Init_no_post | intros _].
  step_always.
Qed.

(** The calls of [Write] after the alert: none of them is a POST. *)
Lemma Write_tail_no_post env msg :
  always (world_grows not_post)
    (bind (checkFile env)
       (fun _ => bind get (fun fw => sys (os.Write env (fd fw) msg)))).
Proof.
  apply always_bind; [typeclasses eauto | apply checkFile_no_post | intros _].
  apply always_bind; [typeclasses eauto | step_always | intros fw].
  apply always_sys. intros w. by apply Write_grows.
Qed.

Lemma Write_eq LE env msg lvl (s : State) :
  Write LE env msg lvl s =
  bind (checkFile env)
    (fun _ => bind get (fun fw => sys (os.Write env (fd fw) msg)))
    (after_alert LE msg lvl s).
Proof.
  destruct s as [fw w]. unfold Write, after_alert.
  destruct (LE <=? lvl)%Z; reflexivity.
Qed.

(** *** The body of the alert *)

Lemma coerce_from_valid s : forall k,
  utf8.valid_from k s = true -> utf8.coerce_from k s = s.
Proof.
  induction s as [|c s IH]; intros k; [reflexivity |].
  cbn [utf8.valid_from utf8.coerce_from]. destruct k as [|k].
  - destruct (utf8.rune_size c s); [| discriminate].
    intros H. by rewrite IH.
  - intros H. by rewrite IH.
Qed.

(** Valid UTF-8 goes through the encoder as it is. *)
Lemma coerce_valid s : utf8.ValidString s = true -> utf8.coerce s = s.
Proof. apply coerce_from_valid. Qed.

Lemma length_replacement s :
  String.length (utf8.replacement +:+ s) = (3 + String.length s)%nat.
Proof. reflexivity. Qed.

Lemma coerce_from_length s : forall k,
  (String.length s <= String.length (utf8.coerce_from k s))%nat.
Proof.
  induction s as [|c s IH]; intros k; [reflexivity |].
  cbn [utf8.coerce_from]. destruct k as [|k].
  - destruct (utf8.rune_size c s) as [sz|].
    + cbn [String.length]. specialize (IH (sz - 1)%nat). lia.
    + rewrite length_replacement. cbn [String.length].
      specialize (IH 0%nat). lia.
  - cbn [String.length]. specialize (IH k). lia.
Qed.

Lemma coerce_from_invalid s : forall k,
  utf8.valid_from k s = false ->
  (String.length s < String.length (utf8.coerce_from k s))%nat.
Proof.
  induction s as [|c s IH]; intros k; [discriminate |].
  cbn [utf8.valid_from utf8.coerce_from]. destruct k as [|k].
  - destruct (utf8.rune_size c s) as [sz|]; intros H.
    + cbn [String.length]. specialize (IH _ H). lia.
    + rewrite length_replacement. cbn [String.length].
      pose proof (coerce_from_length s 0). lia.
  - intros H. cbn [String.length]. specialize (IH _ H). lia.
Qed.

(** Anything else is changed by it. *)
Lemma coerce_invalid s : utf8.ValidString s = false -> utf8.coerce s <> s.
Proof.
  intros H E. apply coerce_from_invalid in H.
  unfold utf8.coerce in E. rewrite E in H. lia.
Qed.

Lemma json_body_valid m :
  utf8.ValidString (Text m) = true ->
  utf8.ValidString (Username m) = true ->
  utf8.ValidString (Channel m) = true ->
  json_body m = m.
Proof.
  intros Ht Hu Hc. unfold json_body. rewrite !coerce_valid by assumption.
  by destruct m.
Qed.

Lemma Write_posts LE env fw w msg lvl thr :
  let s1 := snd (SetLevel thr (fw, w)) in
  let s2 := snd (Write LE env msg lvl s1) in
  posts_of (made (snd s1) (snd s2)) =
  if (LE <=? lvl)%Z then [alert_of fw msg] else [].
Proof.
  intros s1 s2. subst s2. rewrite Write_eq.
  destruct (Write_tail_no_post env msg (after_alert LE msg lvl s1)) as (d & E & Hd).
  revert E. unfold after_alert, s1. simpl.
  destruct (LE <=? lvl)%Z; simpl; intros E.
  - rewrite (made_app _ _ ([CallPost (url fw) (snd (alert_of fw msg))] ++ d)).
    + rewrite posts_of_app, (posts_of_none d Hd). reflexivity.
    + rewrite E. by rewrite <- app_assoc.
  - rewrite (made_app _ _ d E). by apply posts_of_none.
Qed.

(** C1 (as the code has it): Write forwards exactly one alert when the
    severity is at least the constant LevelError, and none below it; the
    level stored by SetLevel has no part in it.  The alert goes to the
    configured endpoint; its text, username and channel are the message
    and the configured username and channel as json.Marshal encodes
    them: every byte that is not part of valid UTF-8 is replaced by
    U+FFFD, so they equal the message and the configured identity
    exactly when these are valid UTF-8. *)
Theorem Write_alerts_from_LevelError LE env fw w msg lvl thr :
  let s1 := snd (SetLevel thr (fw, w)) in
  let s2 := snd (Write LE env msg lvl s1) in
  let body :=
    mkSlackMsg (utf8.coerce msg) (utf8.coerce (Username (slack fw)))
      (utf8.coerce (Channel (slack fw))) in
  posts_of (made (snd s1) (snd s2))
  = (if (LE <=? lvl)%Z then [(url fw, body)] else [])
  /\ (utf8.ValidString msg = true -> Text body = msg)
  /\ (utf8.ValidString (Username (slack fw)) = true ->
      Username body = Username (slack fw))
  /\ (utf8.ValidString (Channel (slack fw)) = true ->
      Channel body = Channel (slack fw))
  /\ (utf8.ValidString msg = false -> Text body <> msg).
Proof.
  intros s1 s2 body. split; [apply Write_posts |].
  split; [apply coerce_valid |]. split; [apply coerce_valid |].
  split; [apply coerce_valid | apply coerce_invalid].
Qed.

(** A message with a byte that starts no encoding: the alert carries
    U+FFFD in its place. *)
Example alert_text_is_coerced :
  let msg := String (ascii_of_nat 255) "!" in
  posts_of (made Sample.w
              (snd (snd (Write 4%Z Sample.env msg 4%Z (Sample.fw, Sample.w)))))
  = [(url Sample.fw,
      mkSlackMsg (utf8.replacement +:+ "!") (utf8.coerce (Username (slack Sample.fw)))
        (utf8.coerce (Channel (slack Sample.fw))))].
Proof. vm_compute. reflexivity. Qed.

(** C1 as stated fails whatever the value of LevelError: with the stored
    level set to LevelError + 1, a message of severity LevelError is
    below the stored level and is forwarded all the same. *)
Lemma stored_level_does_not_gate_alerts :
  ~ (exists LE : Level, alerts_by_stored_level LE).
Proof.
  intros [LE H].
  specialize (H Sample.env Sample.fw Sample.w "disk full" LE (LE + 1)%Z).
  cbv zeta in H. rewrite Write_posts in H.
  rewrite Z.leb_refl in H.
  replace (LE <? LE + 1)%Z with true in H by (symmetry; apply Z.ltb_lt; lia).
  discriminate H.
Qed.

(** *** Forwarding failures stay out of the result of [Write] *)



(** ** The hourly ticker *)

Module TickerFacts.
Import hourlyTicker.

Lemma blocked_takes_no_case ht e : pending ht = true -> step e ht = None.
Proof.
  unfold pending, step. destruct (state ht), e; congruence.
Qed.

Lemma blocked_stays ht es ht' :
  pending ht = true -> run es ht = Some ht' -> ht' = ht.
Proof.
  intros Hp. destruct es as [|e es]; simpl.
  - congruence.
  - rewrite (blocked_takes_no_case ht e Hp). discriminate.
Qed.

Lemma stop_keeps_state ht : state (snd (stop ht)) = state ht.
Proof. unfold stop. destruct (quit_closed ht); reflexivity. Qed.

Lemma tick_new_hour ht tm h :
  state ht = Selecting h -> Time.Hour tm <> h ->
  step (Tick tm) ht = Some (mk (Sending tm h) (quit_closed ht)).
Proof.
  intros Hs Hne. unfold step. rewrite Hs.
  destruct (Nat.eqb_spec (Time.Hour tm) h); [contradiction | reflexivity].
Qed.

Lemma stop_twice ht :
  stop (snd (stop ht))
  = (Panic (ErrRuntime "close of closed channel"), snd (stop ht)).
Proof. unfold stop. destruct (quit_closed ht) eqn:E; simpl; rewrite ?E; reflexivity. Qed.

End TickerFacts.

(** C2 (as the code has it): on a tick whose hour differs from the
    tracked one the goroutine sends the event on the unbuffered channel
    and blocks there.  Blocked, it takes no tick and no quit, also after
    stop, and stays as it is until a Write receives the event; the
    receive puts it back in its select with the hour of the event.  It
    can be cancelled while it is in its select. *)
Theorem boundary_send_blocks_until_received ht tm h :
  hourlyTicker.state ht = hourlyTicker.Selecting h ->
  Time.Hour tm <> h ->
  let ht1 := hourlyTicker.mk (hourlyTicker.Sending tm h) (hourlyTicker.quit_closed ht) in
  hourlyTicker.step (hourlyTicker.Tick tm) ht = Some ht1
  /\ (forall es ht', hourlyTicker.run es ht1 = Some ht' -> ht' = ht1)
  /\ (forall e, hourlyTicker.step e (snd (hourlyTicker.stop ht1)) = None)
  /\ hourlyTicker.receive ht1
     = (Some tm, hourlyTicker.mk (hourlyTicker.Selecting (Time.Hour tm))
                   (hourlyTicker.quit_closed ht))
  /\ hourlyTicker.step hourlyTicker.Quit (snd (hourlyTicker.stop ht))
     = Some (hourlyTicker.mk hourlyTicker.Returned true).
Proof.
  intros Hs Hne ht1. repeat split.
  - by apply TickerFacts.tick_new_hour.
  - intros es ht'. by apply TickerFacts.blocked_stays.
  - intros e. apply TickerFacts.blocked_takes_no_case.
    unfold hourlyTicker.pending. by rewrite TickerFacts.stop_keeps_state.
  - unfold hourlyTicker.step, hourlyTicker.stop.
    destruct (hourlyTicker.quit_closed ht) eqn:E; simpl; rewrite Hs; simpl;
      rewrite ?E; reflexivity.
Qed.

Lemma boundary_send_blocks_witness :
  let ht := hourlyTicker.newHourlyTicker (Sample.at_ 14 0 0) in
  let tm := Sample.at_ 15 0 0 in
  hourlyTicker.step (hourlyTicker.Tick tm) ht
  = Some (hourlyTicker.mk (hourlyTicker.Sending tm 14) false).
Proof.
  intros ht tm.
  exact (proj1 (boundary_send_blocks_until_received ht tm 14 eq_refl
                  ltac:(simpl; lia))).
Defined.

(** C2 as stated fails: after the tick of 15:00:00 the goroutine started
    at 14:00:00 is blocked in its send, and with no Write to receive the
    event it cannot be cancelled, stop or not. *)
Lemma blocked_send_is_not_cancellable : ~ send_never_blocks.
Proof.
  intros H.
  destruct (H (Sample.at_ 14 0 0) [hourlyTicker.Tick (Sample.at_ 15 0 0)]
              _ eq_refl) as (es & ht' & Hrun & Hret).
  apply TickerFacts.blocked_stays in Hrun; [| reflexivity].
  subst ht'. discriminate Hret.
Qed.

(** C9 (as the code has it): stop on an instance whose quit channel is
    open closes it and returns, and a goroutine in its select can then
    take the quit case and return; stop is not idempotent: a second call
    on the same instance panics on the closed channel. *)
Theorem stop_closes_once ht :
  hourlyTicker.quit_closed ht = false ->
  hourlyTicker.stop ht = (Ret tt, hourlyTicker.mk (hourlyTicker.state ht) true)
  /\ (forall h, hourlyTicker.state ht = hourlyTicker.Selecting h ->
        hourlyTicker.step hourlyTicker.Quit (snd (hourlyTicker.stop ht))
        = Some (hourlyTicker.mk hourlyTicker.Returned true))
  /\ hourlyTicker.stop (snd (hourlyTicker.stop ht))
     = (Panic (ErrRuntime "close of closed channel"), snd (hourlyTicker.stop ht)).
Proof.
  intros Hq. repeat split.
  - unfold hourlyTicker.stop. by rewrite Hq.
  - intros h Hs. unfold hourlyTicker.stop, hourlyTicker.step. rewrite Hq. simpl.
    by rewrite Hs.
  - apply TickerFacts.stop_twice.
Qed.

Lemma stop_closes_once_witness :
  let ht := hourlyTicker.newHourlyTicker (Sample.at_ 14 0 0) in
  hourlyTicker.stop ht = (Ret tt, hourlyTicker.mk (hourlyTicker.Selecting 14) true)
  /\ hourlyTicker.stop (snd (hourlyTicker.stop ht))
     = (Panic (ErrRuntime "close of closed channel"), snd (hourlyTicker.stop ht)).
Proof.
  intros ht.
  pose proof (stop_closes_once ht eq_refl) as (H1 & _ & H3).
  split; [exact H1 | exact H3].
Defined.

(** C9 as stated fails: the second stop on a fresh ticker panics. *)
Lemma second_stop_panics :
  ~ stop_idempotent (hourlyTicker.newHourlyTicker (Sample.at_ 14 0 0)).
Proof. unfold stop_idempotent. simpl. discriminate. Qed.

(** ** [Init] and [checkFile] in direct style *)

Lemma Init_eq env s : Init env s = Init_run env s.
Proof.
  destruct s as [fw w]. destruct fw as [lv fp f u sl ht].
  unfold Init, Init_run, relink, resolve, logFile_of.
  unfold bind, get, set_filepath, set_fd, modify, sys, ret, panic.
  cbn [fst snd filepath upd_filepath upd_fd level fd url slack ticker].
  destruct (String.length fp =? 0)%nat;
    cbn [fst snd filepath upd_filepath upd_fd level fd url slack ticker].
  all: match goal with
       | |- context [negb (filepath.IsAbs ?p)] =>
           destruct (negb (filepath.IsAbs p))
       end;
    cbn [fst snd filepath upd_filepath upd_fd level fd url slack ticker].
  all: match goal with
       | |- context [os.MkdirAll ?e ?p ?w] =>
           destruct (os.MkdirAll e p w) as [[e1|] w1]
       end; try reflexivity.
  all: match goal with
       | |- context [os.Lstat ?e ?p ?w] =>
           destruct (os.Lstat e p w) as [err w2]
       end.
  all: destruct (match err with Some e => IsExist e | None => true end).
  all: repeat (match goal with
       | |- context [os.Remove ?e ?p ?w] =>
           destruct (os.Remove e p w) as [? ?]
       | |- context [os.Symlink ?e ?t ?p ?w] =>
           destruct (os.Symlink e t p w) as [? ?]
       | |- context [os.OpenFile ?e ?p ?w] =>
           destruct (os.OpenFile e p w) as [[?|?] ?]
       end; cbn [fst snd]).
  all: reflexivity.
Qed.

Lemma bind_run {A B} (m : M A) (k : A -> M B) s :
  bind m k s
  = match m s with
    | (Ret a, s') => k a s'
    | (Panic e, s') => (Panic e, s')
    end.
Proof. reflexivity. Qed.

Lemma fd_Sync_run env fw w :
  fd_Sync env (fw, w)
  = (Ret (fst (os.Sync env (fd fw) w)), (fw, snd (os.Sync env (fd fw) w))).
Proof.
  unfold fd_Sync, bind, get, sys. cbn [fst snd].
  by destruct (os.Sync env (fd fw) w).
Qed.

Lemma fd_Close_run env fw w :
  fd_Close env (fw, w)
  = let '(e, f, w') := os.Close env (fd fw) w in (Ret e, (upd_fd f fw, w')).
Proof.
  unfold fd_Close, bind, get, sys, set_fd, modify, ret. cbn [fst snd].
  by destruct (os.Close env (fd fw) w) as [[e f] w'].
Qed.

Lemma checkFile_eq env s : checkFile env s = checkFile_run env s.
Proof.
  destruct s as [fw w].
  unfold checkFile, checkFile_run, before_reinit, hourlyTicker.pending.
  rewrite bind_run. cbn [get fst snd].
  unfold hourlyTicker.receive.
  destruct (hourlyTicker.state (ticker fw)) as [h | tm h |] eqn:Est.
  2: { rewrite bind_run. cbn [set_ticker modify fst snd].
       rewrite bind_run, fd_Sync_run, bind_run, fd_Close_run.
       cbn [fd upd_ticker].
       destruct (os.Close env (fd fw) _) as [[e2 f2] w2].
       rewrite bind_run, Init_eq.
       destruct (Init_run env _) as [[r|e] s']; reflexivity. }
  all: rewrite bind_run; cbn [set_ticker modify fst snd ret];
    destruct fw as [lv fp f u sl [st q]]; reflexivity.
Qed.

Lemma checkFile_idle env s :
  hourlyTicker.pending (ticker (fst s)) = false -> checkFile env s = (Ret tt, s).
Proof. intros H. rewrite checkFile_eq. unfold checkFile_run. by rewrite H. Qed.

Lemma Write_run LE env msg lvl s :
  Write LE env msg lvl s
  = match checkFile_run env (after_alert LE msg lvl s) with
    | (Ret _, s2) =>
        (Ret (fst (os.Write env (fd (fst s2)) msg (snd s2))),
         (fst s2, snd (os.Write env (fd (fst s2)) msg (snd s2))))
    | (Panic e, s2) => (Panic e, s2)
    end.
Proof.
  rewrite Write_eq, bind_run, checkFile_eq.
  destruct (checkFile_run env _) as [[[]|e] [fw2 w2]]; [| reflexivity].
  unfold bind, get, sys. cbn [fst snd].
  by destruct (os.Write env (fd fw2) msg w2).
Qed.

(** ** Failure to make the directory *)

Lemma MkdirAll_failed env p w e :
  fst (os.MkdirAll env p w) = Some e ->
  os.MkdirAll env p w = (Some e, os.record (CallMkdirAll p) w).
Proof.
  unfold os.MkdirAll. repeat case_match; simpl; congruence.
Qed.

Lemma Init_mkdir_failed env fw w e :
  fst (os.MkdirAll env (resolve env (filepath fw)) w) = Some e ->
  Init env (fw, w)
  = (Panic e, (upd_filepath (resolve env (filepath fw)) fw,
               os.record (CallMkdirAll (resolve env (filepath fw))) w)).
Proof.
  intros H. rewrite Init_eq. unfold Init_run. cbn [fst snd].
  by rewrite (MkdirAll_failed _ _ _ _ H).
Qed.

(** C6 (as the code has it): when MkdirAll fails on the resolved base
    directory, Init panics with that error; it has stored the resolved
    path and made no other call. *)
Theorem Init_panics_when_mkdir_fails env fw w e :
  fst (os.MkdirAll env (resolve env (filepath fw)) w) = Some e ->
  Init env (fw, w)
  = (Panic e, (upd_filepath (resolve env (filepath fw)) fw,
               os.record (CallMkdirAll (resolve env (filepath fw))) w)).
Proof. apply Init_mkdir_failed. Qed.

Lemma Init_panics_when_mkdir_fails_witness :
  Init (Sample.env_no_mkdir (Sample.at_ 14 59 59)) (Sample.fw, Sample.w)
  = (Panic ErrPermission,
     (upd_filepath "/srv/app/logs" Sample.fw,
      os.record (CallMkdirAll "/srv/app/logs") Sample.w)).
Proof.
  exact (Init_panics_when_mkdir_fails
           (Sample.env_no_mkdir (Sample.at_ 14 59 59)) Sample.fw Sample.w
           ErrPermission eq_refl).
Defined.

(** C6 as stated fails: MkdirAll is refused and Init does not return. *)
Lemma Init_does_not_return_mkdir_error :
  ~ Init_returns_mkdir_error
      (Sample.env_no_mkdir (Sample.at_ 14 59 59)) (Sample.fw, Sample.w).
Proof.
  intros H. destruct H as (e & s' & H).
  - exists ErrPermission. reflexivity.
  - rewrite (Init_mkdir_failed (Sample.env_no_mkdir (Sample.at_ 14 59 59))
               Sample.fw Sample.w ErrPermission eq_refl) in H.
    discriminate H.
Qed.

(** ** Writing after [Close] *)

Lemma os_Close_run env f w :
  os.Close env f w
  = (fst (fst (os.Close env f w)), closed_fd f, os.record (CallClose f) w).
Proof.
  unfold os.Close, os.usable. destruct f as [[i n []]|]; reflexivity.
Qed.

Lemma usable_closed_fd f : os.usable (closed_fd f) = inl (closed_error f).
Proof. by destruct f. Qed.

Lemma os_Write_unusable env f data w e :
  os.usable f = inl e ->
  os.Write env f data w = (Some e, os.record (CallWrite f data) w).
Proof. intros H. unfold os.Write. by rewrite H. Qed.

Lemma Close_state env fw w :
  snd (Close env (fw, w))
  = (upd_fd (closed_fd (fd fw)) fw, os.record (CallClose (fd fw)) w).
Proof.
  unfold Close. rewrite fd_Close_run, os_Close_run. reflexivity.
Qed.

Lemma after_alert_fst LE msg lvl s : fst (after_alert LE msg lvl s) = fst s.
Proof. unfold after_alert. by destruct (LE <=? lvl)%Z. Qed.

Lemma after_alert_fs LE msg lvl s :
  fs (snd (after_alert LE msg lvl s)) = fs (snd s).
Proof. unfold after_alert. by destruct (LE <=? lvl)%Z. Qed.

Lemma Write_after_Close_idle LE envC envW fw w msg lvl :
  hourlyTicker.pending (ticker fw) = false ->
  let s1 := snd (Close envC (fw, w)) in
  let s2 := after_alert LE msg lvl s1 in
  fd (fst s1) = closed_fd (fd fw)
  /\ Write LE envW msg lvl s1
     = (Ret (Some (closed_error (fd fw))),
        (fst s1, os.record (CallWrite (fd (fst s1)) msg) (snd s2)))
  /\ fs (os.record (CallWrite (fd (fst s1)) msg) (snd s2)) = fs w.
Proof.
  intros Hp s1 s2. subst s2 s1. rewrite Close_state. cbn [fst snd].
  split; [reflexivity |]. split.
  - rewrite Write_run. unfold checkFile_run.
    rewrite after_alert_fst. cbn [fst ticker upd_fd]. rewrite Hp.
    rewrite after_alert_fst. cbn [fst snd fd upd_fd].
    rewrite (os_Write_unusable envW _ msg _ _ (usable_closed_fd (fd fw))).
    reflexivity.
  - cbn [fs os.record]. rewrite after_alert_fs. reflexivity.
Qed.

(** C3 (as the code has it): the writer has no closed-state check of its
    own.  After Close, a Write that finds no pending boundary event gets
    the error of os.File on the closed descriptor (file already closed;
    invalid argument when no file was ever opened) and returns it; the
    writer and the files are left as they were. *)
Theorem Write_after_Close_without_boundary LE envC envW fw w msg lvl :
  hourlyTicker.pending (ticker fw) = false ->
  let s1 := snd (Close envC (fw, w)) in
  let s2 := after_alert LE msg lvl s1 in
  fd (fst s1) = closed_fd (fd fw)
  /\ Write LE envW msg lvl s1
     = (Ret (Some (closed_error (fd fw))),
        (fst s1, os.record (CallWrite (fd (fst s1)) msg) (snd s2)))
  /\ fs (os.record (CallWrite (fd (fst s1)) msg) (snd s2)) = fs w.
Proof. apply Write_after_Close_idle. Qed.

Lemma Write_after_Close_without_boundary_witness :
  fst (Write 4%Z Sample.env "late" 0%Z (snd (Close Sample.env Scenario.opened)))
  = Ret (Some ErrClosed).
Proof.
  pose proof (Write_after_Close_without_boundary 4%Z Sample.env Sample.env
                (fst Scenario.opened) (snd Scenario.opened) "late" 0%Z eq_refl)
    as (_ & H & _).
  exact (f_equal fst H).
Defined.

(** C3 as stated fails: the tick of 15:00:00 has been taken, the writer
    is closed, and the next Write rotates, opens the file of 15 h and
    returns no error, whatever LevelError is. *)
Lemma Write_after_Close_can_succeed :
  ~ (exists LE : Level,
       Write_after_Close_rejected LE
         (Sample.env_at (Sample.at_ 15 0 1)) (Sample.env_at (Sample.at_ 15 0 1))
         Scenario.at_boundary "late" 0%Z).
Proof.
  intros (LE & e & s' & H). apply (f_equal fst) in H.
  rewrite Write_run in H. unfold after_alert in H.
  destruct (LE <=? 0)%Z; vm_compute in H; discriminate H.
Qed.

(** ** A rotation whose re-initialisation fails *)

Lemma Init_run_error_fst env s e s2 :
  Init_run env s = (Ret (Some e), s2) ->
  fst s2 = upd_filepath (resolve env (filepath (fst s))) (fst s).
Proof.
  unfold Init_run.
  destruct (os.MkdirAll env _ (snd s)) as [[e1|] w1]; [discriminate |].
  destruct (os.OpenFile env _ _) as [[e2|f] w5]; [| discriminate].
  intros H. by injection H as _ <-.
Qed.

Lemma before_reinit_fd env s :
  fd (fst (before_reinit env s)) = closed_fd (fd (fst s)).
Proof.
  unfold before_reinit. rewrite os_Close_run. reflexivity.
Qed.

Lemma Write_reinit_failed LE env fw w msg lvl e s2 :
  hourlyTicker.pending (ticker fw) = true ->
  Init env (before_reinit env (after_alert LE msg lvl (fw, w)))
  = (Ret (Some e), s2) ->
  fd (fst s2) = closed_fd (fd fw)
  /\ os.usable (fd (fst s2)) = inl (closed_error (fd fw))
  /\ Write LE env msg lvl (fw, w)
     = (Ret (Some (closed_error (fd fw))),
        (fst s2, os.record (CallWrite (fd (fst s2)) msg) (snd s2))).
Proof.
  intros Hp HI. rewrite Init_eq in HI.
  assert (Hfd : fd (fst s2) = closed_fd (fd fw)).
  { rewrite (Init_run_error_fst _ _ _ _ HI). cbn [fd upd_filepath].
    rewrite before_reinit_fd, after_alert_fst. reflexivity. }
  assert (Hu : os.usable (fd (fst s2)) = inl (closed_error (fd fw))).
  { rewrite Hfd. apply usable_closed_fd. }
  split; [exact Hfd |]. split; [exact Hu |].
  rewrite Write_run. unfold checkFile_run.
  rewrite after_alert_fst. cbn [fst]. rewrite Hp, HI.
  rewrite (os_Write_unusable env _ msg _ _ Hu). reflexivity.
Qed.

(** C5 (as the code has it): checkFile drops the result of Init.  When
    a Write triggers a rotation and Init returns an error, the writer
    keeps the old descriptor, which the rotation has closed; the write
    on it fails, and Write returns that error of the closed descriptor
    (not the error of Init). *)
Theorem Write_when_reinit_fails LE env fw w msg lvl e s2 :
  hourlyTicker.pending (ticker fw) = true ->
  Init env (before_reinit env (after_alert LE msg lvl (fw, w)))
  = (Ret (Some e), s2) ->
  fd (fst s2) = closed_fd (fd fw)
  /\ os.usable (fd (fst s2)) = inl (closed_error (fd fw))
  /\ Write LE env msg lvl (fw, w)
     = (Ret (Some (closed_error (fd fw))),
        (fst s2, os.record (CallWrite (fd (fst s2)) msg) (snd s2))).
Proof. apply Write_reinit_failed. Qed.

Lemma Write_when_reinit_fails_witness :
  let env := Sample.env_no_open (Sample.at_ 15 0 1) in
  let r := Write 4%Z env "x" 0%Z Scenario.at_boundary in
  fst r = Ret (Some ErrClosed)
  /\ os.usable (fd (fst (snd r))) = inl ErrClosed.
Proof.
  intros env r.
  pose proof (Write_when_reinit_fails 4%Z env
                (fst Scenario.at_boundary) (snd Scenario.at_boundary) "x" 0%Z
                ErrPermission
                (snd (Init env (before_reinit env Scenario.at_boundary)))
                eq_refl ltac:(vm_compute; reflexivity))
    as (_ & Hu & HW).
  subst r. split.
  - exact (f_equal fst HW).
  - change (fst Scenario.at_boundary, snd Scenario.at_boundary)
      with Scenario.at_boundary in HW.
    rewrite HW. exact Hu.
Defined.

(** C5 as stated fails: the tick of 15:00:00 has been taken and the
    system refuses to open the file of 15 h; Init returns that error,
    and the writer is left with the closed descriptor of 14 h, whatever
    LevelError is. *)
Lemma rotation_failure_leaves_closed_descriptor :
  ~ (exists LE : Level,
       rotation_failure_handled LE (Sample.env_no_open (Sample.at_ 15 0 1))
         Scenario.at_boundary "x" 0%Z).
Proof.
  intros [LE H]. unfold rotation_failure_handled in H.
  destruct (Init (Sample.env_no_open (Sample.at_ 15 0 1))
              (before_reinit (Sample.env_no_open (Sample.at_ 15 0 1))
                 (after_alert LE "x" 0%Z Scenario.at_boundary)))
    as [[[e|]|p] s2] eqn:E.
  - destruct (H e s2 eq_refl) as (e' & s' & f & HW & Hu).
    destruct (Write_reinit_failed LE _ (fst Scenario.at_boundary)
                (snd Scenario.at_boundary) "x" 0%Z e s2 eq_refl E)
      as (_ & Hu' & HW').
    change (fst Scenario.at_boundary, snd Scenario.at_boundary)
      with Scenario.at_boundary in HW'.
    rewrite HW' in HW. injection HW as _ <-.
    cbn [fst] in Hu. rewrite Hu' in Hu. discriminate Hu.
  - apply (f_equal fst) in E. unfold after_alert in E.
    destruct (LE <=? 0)%Z; vm_compute in E; discriminate E.
  - apply (f_equal fst) in E. unfold after_alert in E.
    destruct (LE <=? 0)%Z; vm_compute in E; discriminate E.
Qed.

(** ** Lazy rotation *)

Lemma run_stays_in_hour es : forall ht ht' h,
  (hourlyTicker.state ht = hourlyTicker.Selecting h
   \/ hourlyTicker.state ht = hourlyTicker.Returned) ->
  forallb (stays_in_hour h) es = true ->
  hourlyTicker.run es ht = Some ht' ->
  hourlyTicker.pending ht' = false.
Proof.
  induction es as [|e es IH]; intros ht ht' h Hst Hes Hrun; simpl in Hrun.
  - injection Hrun as <-. unfold hourlyTicker.pending.
    by destruct Hst as [-> | ->].
  - simpl in Hes. apply andb_prop in Hes as [He Hes].
    destruct (hourlyTicker.step e ht) as [ht1|] eqn:Estep; [| discriminate].
    apply (IH ht1 ht' h); [| exact Hes | exact Hrun].
    unfold hourlyTicker.step in Estep.
    destruct Hst as [Hst | Hst]; rewrite Hst in Estep; [| by destruct e].
    destruct e as [tm |]; simpl in He.
    + rewrite He in Estep. simpl in Estep. injection Estep as <-. by left.
    + destruct (hourlyTicker.quit_closed ht); [| discriminate].
      injection Estep as <-. by right.
Qed.

Lemma background_idle es s h :
  hourlyTicker.state (ticker (fst s)) = hourlyTicker.Selecting h ->
  forallb (stays_in_hour h) es = true ->
  hourlyTicker.pending (ticker (fst (background es s))) = false.
Proof.
  intros Hst Hes. unfold background.
  destruct (hourlyTicker.run es (ticker (fst s))) as [ht'|] eqn:Erun.
  - cbn [fst ticker upd_ticker].
    apply (run_stays_in_hour es _ _ h (or_introl Hst) Hes Erun).
  - unfold hourlyTicker.pending. by rewrite Hst.
Qed.

Lemma background_keeps es s :
  fd (fst (background es s)) = fd (fst s)
  /\ filepath (fst (background es s)) = filepath (fst s)
  /\ snd (background es s) = snd s.
Proof.
  unfold background. by destruct (hourlyTicker.run es (ticker (fst s))).
Qed.

Lemma Write_idle LE env msg lvl s :
  hourlyTicker.pending (ticker (fst s)) = false ->
  checkFile env (after_alert LE msg lvl s) = (Ret tt, after_alert LE msg lvl s)
  /\ fst (snd (Write LE env msg lvl s)) = fst s.
Proof.
  intros Hp.
  assert (Hc : checkFile env (after_alert LE msg lvl s)
               = (Ret tt, after_alert LE msg lvl s)).
  { apply checkFile_idle. by rewrite after_alert_fst. }
  split; [exact Hc |].
  rewrite Write_run, <- checkFile_eq, Hc. cbn [fst snd].
  apply after_alert_fst.
Qed.

(** C7 (as the code has it): rotation happens only in a Write that
    finds the goroutine of the ticker blocked in its send.  A Write that
    finds no pending event leaves the writer (descriptor, file name,
    base directory) as it is, and the goroutine never touches the writer
    or the files.  Of two consecutive Writes, the second finds no
    pending event when the first left the goroutine in its select on
    hour h and every case it took in between carried hour h. *)
Theorem Write_rotates_only_on_pending_event LE env1 env2 es s m1 l1 m2 l2 h :
  let s1 := snd (Write LE env1 m1 l1 s) in
  let s1' := background es s1 in
  hourlyTicker.state (ticker (fst s1)) = hourlyTicker.Selecting h ->
  forallb (stays_in_hour h) es = true ->
  (forall env' s' m l,
     hourlyTicker.pending (ticker (fst s')) = false ->
     checkFile env' (after_alert LE m l s') = (Ret tt, after_alert LE m l s')
     /\ fst (snd (Write LE env' m l s')) = fst s')
  /\ (fd (fst s1') = fd (fst s1) /\ filepath (fst s1') = filepath (fst s1)
      /\ snd s1' = snd s1)
  /\ hourlyTicker.pending (ticker (fst s1')) = false
  /\ checkFile env2 (after_alert LE m2 l2 s1') = (Ret tt, after_alert LE m2 l2 s1')
  /\ fd (fst (snd (Write LE env2 m2 l2 s1'))) = fd (fst s1)
  /\ filepath (fst (snd (Write LE env2 m2 l2 s1'))) = filepath (fst s1).
Proof.
  intros s1 s1' Hst Hes.
  pose proof (background_idle es s1 h Hst Hes) as Hp.
  pose proof (background_keeps es s1) as (Hfd & Hfp & Hw).
  pose proof (Write_idle LE env2 m2 l2 s1' Hp) as (Hc & Hfw).
  split; [intros env' s' m l; apply Write_idle |].
  split; [done |]. split; [exact Hp |]. split; [exact Hc |].
  rewrite Hfw. done.
Qed.

Lemma Write_rotates_only_on_pending_event_witness :
  let env1 := Sample.env_at (Sample.at_ 14 59 59) in
  let env2 := Sample.env_at (Sample.at_ 14 59 59) in
  let es := [hourlyTicker.Tick (Sample.at_ 14 59 59)] in
  let s1 := snd (Write 4%Z env1 "hello" 0%Z Scenario.opened) in
  fd (fst (snd (Write 4%Z env2 "again" 0%Z (background es s1)))) = fd (fst s1).
Proof.
  intros env1 env2 es s1.
  exact (proj1 (proj2 (proj2 (proj2 (proj2
           (Write_rotates_only_on_pending_event 4%Z env1 env2 es
              Scenario.opened "hello" 0%Z "again" 0%Z 14
              ltac:(vm_compute; reflexivity) ltac:(vm_compute; reflexivity))))))).
Defined.

(** C7 as stated fails: the writer was opened at 14:59:59.  A first
    Write at 15:00:00 comes before the goroutine has taken the tick of
    15:00:00 and goes to the file of 14 h; the goroutine then takes that
    tick; a second Write at 15:00:01, in the same hour as the first,
    rotates to the file of 15 h.  This holds whatever LevelError is. *)
Lemma second_write_of_the_hour_can_rotate :
  ~ (exists LE : Level, no_rotation_within_hour LE).
Proof.
  intros [LE H].
  specialize (H (Sample.env_at (Sample.at_ 15 0 0))
                (Sample.env_at (Sample.at_ 15 0 1))
                [hourlyTicker.Tick (Sample.at_ 15 0 0)]
                Scenario.opened "first" 0%Z "second" 0%Z eq_refl eq_refl).
  cbv zeta in H. rewrite checkFile_eq, Write_run in H.
  unfold after_alert in H.
  destruct (LE <=? 0)%Z; vm_compute in H; discriminate H.
Qed.

(** ** The name of the hourly file *)

Module TimeFacts.
Import Time.
Local Open Scope nat_scope.

Lemma append_cons x (a b : string) : String x a +:+ b = String x (a +:+ b).
Proof. reflexivity. Qed.

Lemma append_assoc (a b c : string) : (a +:+ b) +:+ c = a +:+ (b +:+ c).
Proof.
  induction a as [|x a IH]; [reflexivity |].
  rewrite !append_cons. congruence.
Qed.

Lemma length_append (a b : string) :
  String.length (a +:+ b) = String.length a + String.length b.
Proof.
  induction a as [|x a IH]; [reflexivity |].
  rewrite append_cons. simpl. congruence.
Qed.

Lemma length_zeros k : String.length (zeros k) = k.
Proof. induction k as [|k IH]; simpl; congruence. Qed.

Lemma digit_val_digit n : digit_val (digit n) = Some (n mod 10).
Proof.
  unfold digit_val, digit.
  pose proof (Nat.mod_upper_bound n 10 ltac:(lia)) as Hlt.
  rewrite nat_ascii_embedding by lia.
  replace (48 <=? 48 + n mod 10) with true by (symmetry; apply Nat.leb_le; lia).
  replace (48 + n mod 10 <=? 57) with true by (symmetry; apply Nat.leb_le; lia).
  simpl. f_equal. lia.
Qed.

Lemma parse_from_digit a n s :
  parse_from a (String (digit n) s) = parse_from (10 * a + n mod 10) s.
Proof. cbn [parse_from]. by rewrite digit_val_digit. Qed.

(** Reading the digits of [n] in front of [acc] shifts what was read
    before them and adds [n]. *)
Lemma parse_digits_fuel f : forall n acc,
  n < f ->
  exists k, forall a,
    parse_from a (digits_fuel f n acc) = parse_from (a * 10 ^ k + n) acc.
Proof.
  induction f as [|f IH]; intros n acc Hlt; [lia |].
  cbn [digits_fuel]. destruct (Nat.ltb_spec n 10) as [Hs | Hb].
  - exists 1. intros a. rewrite parse_from_digit.
    rewrite Nat.mod_small by lia. f_equal. rewrite Nat.pow_1_r. lia.
  - assert (Hdiv : n / 10 < f).
    { pose proof (Nat.div_lt n 10 ltac:(lia) ltac:(lia)). lia. }
    destruct (IH (n / 10) (String (digit n) acc) Hdiv) as [k Hk].
    exists (S k). intros a. rewrite Hk, parse_from_digit. f_equal.
    pose proof (Nat.div_mod_eq n 10) as Hn.
    rewrite Nat.pow_succ_r'. nia.
Qed.

Lemma parse_digits n : parse (digits n) = Some n.
Proof.
  unfold parse, digits.
  destruct (parse_digits_fuel (S n) n "" ltac:(lia)) as [k Hk].
  rewrite Hk. reflexivity.
Qed.

Lemma parse_from_zeros k s : parse_from 0 (zeros k +:+ s) = parse_from 0 s.
Proof.
  induction k as [|k IH]; [reflexivity |].
  simpl zeros. rewrite append_cons. exact IH.
Qed.

(** [appendInt] can be read back, whatever the width. *)
Lemma parse_appendInt n w : parse (appendInt n w) = Some n.
Proof.
  unfold appendInt, parse. rewrite parse_from_zeros. apply parse_digits.
Qed.

Lemma length_digits_fuel k : forall f n acc,
  n < f -> n < 10 ^ S k ->
  String.length (digits_fuel f n acc) <= S k + String.length acc.
Proof.
  induction k as [|k IH]; intros f n acc Hf Hn;
    (destruct f as [|f]; [lia |]); cbn [digits_fuel].
  - rewrite Nat.pow_1_r in Hn.
    destruct (Nat.ltb_spec n 10); [cbn [String.length]; lia | lia].
  - destruct (Nat.ltb_spec n 10) as [Hs | Hb]; [cbn [String.length]; lia |].
    assert (Hdiv : n / 10 < f).
    { pose proof (Nat.div_lt n 10 ltac:(lia) ltac:(lia)). lia. }
    assert (Hpow : n / 10 < 10 ^ S k).
    { apply Nat.Div0.div_lt_upper_bound. rewrite Nat.pow_succ_r' in Hn. lia. }
    pose proof (IH f (n / 10) (String (digit n) acc) Hdiv Hpow) as H.
    cbn [String.length] in H. lia.
Qed.

(** Below [10 ^ w] the field has exactly [w] characters. *)
Lemma length_appendInt n k :
  n < 10 ^ S k -> String.length (appendInt n (S k)) = S k.
Proof.
  intros Hn. unfold appendInt. rewrite length_append, length_zeros.
  pose proof (length_digits_fuel k (S n) n "" ltac:(lia) Hn) as H.
  fold (digits n) in H. cbn [String.length] in H. lia.
Qed.

Lemma valid_bounds x :
  valid x = true ->
  year x < 10 ^ 4 /\ month x < 10 ^ 2 /\ day x < 10 ^ 2 /\ hour x < 10 ^ 2
  /\ hour x < 24.
Proof.
  unfold valid. rewrite !andb_true_iff, !Nat.ltb_lt, !Nat.leb_le.
  change (10 ^ 2) with 100. change (10 ^ 4) with (100 * 100). lia.
Qed.

End TimeFacts.

(** ** What a successful [Init] leaves *)

Lemma MkdirAll_calls env p w :
  calls (snd (os.MkdirAll env p w)) = calls w ++ [CallMkdirAll p].
Proof. unfold os.MkdirAll. repeat case_match; reflexivity. Qed.

Lemma Lstat_calls env p w :
  calls (snd (os.Lstat env p w)) = calls w ++ [CallLstat p].
Proof. unfold os.Lstat. repeat case_match; reflexivity. Qed.

Lemma Remove_calls env p w :
  calls (snd (os.Remove env p w)) = calls w ++ [CallRemove p].
Proof. unfold os.Remove. repeat case_match; reflexivity. Qed.

Lemma Symlink_calls env t l w :
  calls (snd (os.Symlink env t l w)) = calls w ++ [CallSymlink t l].
Proof. unfold os.Symlink. repeat case_match; reflexivity. Qed.

Lemma OpenFile_calls env p w :
  calls (snd (os.OpenFile env p w)) = calls w ++ [CallOpenFile p].
Proof. unfold os.OpenFile. repeat case_match; reflexivity. Qed.

(** *** Links *)

Lemma follow_eq n (m : gmap string node) p :
  os.follow n m p
  = match m !! p with
    | Some (Lnk t) =>
        match n with
        | O => None
        | S k => os.follow k m (os.link_target p t)
        end
    | _ => Some p
    end.
Proof. by destruct n. Qed.

(** A path that holds no link leads to itself. *)
Lemma follow_here n (m : gmap string node) p :
  (forall t, m !! p <> Some (Lnk t)) -> os.follow n m p = Some p.
Proof.
  intros H. rewrite follow_eq.
  destruct (m !! p) as [[c|t|]|] eqn:E; try reflexivity. by destruct (H t).
Qed.

(** Where the links lead there is no link. *)
Lemma follow_end n : forall (m : gmap string node) p d,
  os.follow n m p = Some d -> forall t, m !! d <> Some (Lnk t).
Proof.
  induction n as [|n IH]; intros m p d; rewrite follow_eq;
    destruct (m !! p) as [[c|t|]|] eqn:E; intros H t'; simplify_eq;
    try congruence.
  by apply (IH m _ d H).
Qed.

(** A file or a directory put where there was no link changes nothing
    to where the links lead. *)
Lemma follow_insert n : forall (m : gmap string node) p d x,
  (forall t, m !! d <> Some (Lnk t)) -> (forall t, x <> Lnk t) ->
  os.follow n (<[d := x]> m) p = os.follow n m p.
Proof.
  induction n as [|n IH]; intros m p d x Hd Hx; rewrite !(follow_eq _ _ p);
    (destruct (decide (p = d)) as [-> | Hne];
     [ rewrite lookup_insert_eq;
       destruct x as [c|t|]; [| by destruct (Hx t) |];
       destruct (m !! d) as [[c'|t'|]|] eqn:E; try reflexivity;
       by destruct (Hd t')
     | rewrite lookup_insert_ne by congruence ]).
  - reflexivity.
  - destruct (m !! p) as [[c|t|]|]; try reflexivity. by apply IH.
Qed.

Lemma resolve_links_here (m : gmap string node) p :
  (forall t, m !! p <> Some (Lnk t)) -> os.resolve_links m p = Some p.
Proof. apply follow_here. Qed.

Lemma resolve_links_file (m : gmap string node) p c :
  m !! p = Some (Reg c) -> os.resolve_links m p = Some p.
Proof. intros H. apply resolve_links_here. intros t. by rewrite H. Qed.

(** Making the directory, opening the hourly file and writing to it
    change nothing to where the links lead. *)
Lemma MkdirAll_resolve_links env p w q :
  os.resolve_links (fs (snd (os.MkdirAll env p w))) q = os.resolve_links (fs w) q.
Proof.
  unfold os.MkdirAll. destruct (p =? ""); [reflexivity |].
  destruct (mkdir_fault env); [reflexivity |]. cbn [os.record fs].
  destruct (fs w !! p) as [[c|t|]|] eqn:E; cbn [snd os.set_fs fs];
    try reflexivity.
  - by repeat case_match.
  - apply follow_insert; [| done]. intros t. by rewrite E.
Qed.

Lemma OpenFile_resolve_links env p w q :
  os.resolve_links (fs (snd (os.OpenFile env p w))) q = os.resolve_links (fs w) q.
Proof.
  unfold os.OpenFile. destruct (open_fault env); [reflexivity |].
  cbn [os.record fs next_fid].
  destruct (os.resolve_links (fs w) p) as [d|]; [| reflexivity].
  destruct (fs w !! d) as [[c|t|]|] eqn:E; cbn [snd fs]; try reflexivity.
  apply follow_insert; [| done]. intros t. by rewrite E.
Qed.

(** *** The alias *)

Lemma found_by_Lstat_eq r :
  match r with None => true | Some e => IsExist e end = found_by_Lstat r.
Proof. by destruct r as [[]|]. Qed.

Lemma relink_eq env l w1 :
  relink env l w1
  = snd (os.Symlink env (logFile_of env) l (before_Symlink env l w1)).
Proof.
  unfold relink, before_Symlink. by destruct (os.Lstat env l w1) as [err w2].
Qed.

(** The alias is dealt with by Lstat, Remove when Lstat answered nil or
    an error that [os.IsExist] accepts, and Symlink, in this order. *)
Lemma relink_calls_found env l w1 :
  calls (relink env l w1)
  = calls w1 ++ [CallLstat l]
    ++ (if found_by_Lstat (fst (os.Lstat env l w1)) then [CallRemove l] else [])
    ++ [CallSymlink (logFile_of env) l].
Proof.
  unfold relink. pose proof (Lstat_calls env l w1) as HL.
  destruct (os.Lstat env l w1) as [err w2]. cbn [fst snd] in *.
  rewrite found_by_Lstat_eq. destruct (found_by_Lstat err).
  - rewrite Symlink_calls, Remove_calls, HL. by rewrite <- !app_assoc.
  - rewrite Symlink_calls, HL. by rewrite <- !app_assoc.
Qed.

Lemma relink_calls env l w1 :
  exists rm,
    (rm = [] \/ rm = [CallRemove l])
    /\ calls (relink env l w1)
       = calls w1 ++ [CallLstat l] ++ rm ++ [CallSymlink (logFile_of env) l].
Proof.
  exists (if found_by_Lstat (fst (os.Lstat env l w1)) then [CallRemove l] else []).
  split; [destruct (found_by_Lstat _); auto | apply relink_calls_found].
Qed.

(** With no fault of its own, Lstat finds what is at the path. *)
Lemma Lstat_finds env l w1 :
  lstat_fault env = None ->
  found_by_Lstat (fst (os.Lstat env l w1)) = true <-> is_Some (fs w1 !! l).
Proof.
  intros HL. unfold os.Lstat. rewrite HL. cbn [os.record fs].
  destruct (fs w1 !! l) as [n|]; cbn [fst found_by_Lstat].
  - split; [by eexists | done].
  - split; [discriminate | by intros [n H]].
Qed.

(** When Symlink returned nil the alias is the link it made. *)
Lemma Symlink_made env t l w :
  fst (os.Symlink env t l w) = None ->
  fs (snd (os.Symlink env t l w)) !! l = Some (Lnk t).
Proof.
  unfold os.Symlink. destruct (symlink_fault env); [discriminate |].
  cbn [os.record fs]. destruct (fs w !! l); [discriminate |].
  intros _. cbn [snd os.set_fs fs]. apply lookup_insert_eq.
Qed.

(** When the system lets the three calls through, and the alias is not
    a directory that still has entries, nothing is at the path of the
    alias when Symlink is called. *)
Lemma before_Symlink_free env l w1 :
  lstat_fault env = None -> remove_fault env = None ->
  (fs w1 !! l = Some Dir -> os.has_entries (fs w1) l = false) ->
  fs (before_Symlink env l w1) !! l = None.
Proof.
  intros HL HR HD. unfold before_Symlink, os.Lstat, os.Remove.
  rewrite HL, HR. cbn [os.record fs].
  destruct (fs w1 !! l) as [n|] eqn:E; cbn [IsExist snd os.record fs os.set_fs].
  - rewrite E. destruct n as [c|t|]; cbn [snd os.set_fs fs];
      [apply lookup_delete_eq.. |].
    rewrite (HD eq_refl). cbn [snd os.set_fs fs]. apply lookup_delete_eq.
  - exact E.
Qed.

Lemma relink_ok env l w1 :
  lstat_fault env = None -> remove_fault env = None ->
  symlink_fault env = None ->
  (fs w1 !! l = Some Dir -> os.has_entries (fs w1) l = false) ->
  fs (relink env l w1) !! l = Some (Lnk (logFile_of env)).
Proof.
  intros HL HR HS HD. rewrite relink_eq. apply Symlink_made.
  unfold os.Symlink. rewrite HS. cbn [os.record fs].
  by rewrite (before_Symlink_free env l w1 HL HR HD).
Qed.

(** *** The hourly file *)

(** [OpenFile] opens the file the path leads to, creating it where
    nothing was; it changes nothing else. *)
Lemma OpenFile_file env p w f w' :
  os.OpenFile env p w = (inr f, w') ->
  f = mkFile (next_fid w) p false
  /\ exists d c,
       os.resolve_links (fs w') p = Some d
       /\ fs w' !! d = Some (Reg c)
       /\ (fs w' = fs w
           \/ fs w !! d = None /\ fs w' = <[d := Reg ""]> (fs w)).
Proof.
  unfold os.OpenFile. intros H.
  destruct (open_fault env); [discriminate |]. cbn [os.record fs next_fid] in H.
  destruct (os.resolve_links (fs w) p) as [d|] eqn:Ed; [| discriminate].
  destruct (fs w !! d) as [[c|t|]|] eqn:E; try discriminate;
    injection H as <- <-; cbn [fs]; (split; [reflexivity |]).
  - exists d, c. by auto.
  - exists d, "". split; [| split; [apply lookup_insert_eq | by right]].
    unfold os.resolve_links. rewrite follow_insert; [exact Ed | | done].
    intros t. by rewrite E.
Qed.

(** What is in the file system stays where it is. *)
Lemma OpenFile_keeps env p w f w' l n :
  os.OpenFile env p w = (inr f, w') ->
  fs w !! l = Some n ->
  fs w' !! l = Some n /\ f = mkFile (next_fid w) p false.
Proof.
  intros H Hl. destruct (OpenFile_file env p w f w' H)
    as (Hf & d & c & _ & _ & [-> | [Hd ->]]); (split; [| exact Hf]).
  - exact Hl.
  - rewrite lookup_insert_ne; [exact Hl | congruence].
Qed.

Lemma logFile_shape env :
  Time.valid (now env) = true ->
  exists y m d h : string,
    logFile_of env
    = "text_" +:+ y +:+ "-" +:+ m +:+ "-" +:+ d +:+ "_" +:+ h +:+ ".log"
    /\ (String.length y = 4 /\ String.length m = 2
        /\ String.length d = 2 /\ String.length h = 2)%nat
    /\ Time.parse y = Some (Time.year (now env))
    /\ Time.parse m = Some (Time.month (now env))
    /\ Time.parse d = Some (Time.day (now env))
    /\ Time.parse h = Some (Time.hour (now env))
    /\ (Time.hour (now env) < 24)%nat.
Proof.
  intros Hv. apply TimeFacts.valid_bounds in Hv as (Hy & Hm & Hd & Hh & Hh24).
  exists (Time.appendInt (Time.year (now env)) 4),
    (Time.appendInt (Time.month (now env)) 2),
    (Time.appendInt (Time.day (now env)) 2),
    (Time.appendInt (Time.hour (now env)) 2).
  split.
  { unfold logFile_of, Time.Format_date_hour.
    rewrite !TimeFacts.append_assoc. reflexivity. }
  split.
  { repeat split; by apply TimeFacts.length_appendInt. }
  repeat split; try apply TimeFacts.parse_appendInt. exact Hh24.
Qed.

Lemma Init_success env fw w fw' w' :
  Init env (fw, w) = (Ret None, (fw', w')) ->
  let p := resolve env (filepath fw) in
  let linkFile := filepath.Join [p; "text.log"] in
  let hourly := filepath.Join [p; logFile_of env] in
  let w1 := snd (os.MkdirAll env p w) in
  let lstat := fst (os.Lstat env linkFile w1) in
  filepath fw' = p
  /\ (exists i, fd fw' = Some (mkFile i hourly false))
  /\ (exists d c,
        os.resolve_links (fs w') hourly = Some d /\ fs w' !! d = Some (Reg c))
  /\ made w w'
     = [CallMkdirAll p; CallLstat linkFile]
       ++ (if found_by_Lstat lstat then [CallRemove linkFile] else [])
       ++ [CallSymlink (logFile_of env) linkFile; CallOpenFile hourly]
  /\ (lstat_fault env = None ->
      (found_by_Lstat lstat = true <-> is_Some (fs w1 !! linkFile)))
  /\ (fst (os.Symlink env (logFile_of env) linkFile
             (before_Symlink env linkFile w1)) = None ->
      fs w' !! linkFile = Some (Lnk (logFile_of env)))
  /\ (lstat_fault env = None -> remove_fault env = None ->
      symlink_fault env = None ->
      (fs w1 !! linkFile = Some Dir -> os.has_entries (fs w1) linkFile = false) ->
      fs w' !! linkFile = Some (Lnk (logFile_of env))).
Proof.
  intros H p linkFile hourly w1 lstat. rewrite Init_eq in H. unfold Init_run in H.
  cbn [fst snd] in H. fold p in H. fold linkFile in H. fold hourly in H.
  pose proof (MkdirAll_calls env p w) as HM. fold w1 in HM.
  assert (EM : os.MkdirAll env p w = (None, w1)).
  { subst w1. revert H.
    destruct (os.MkdirAll env p w) as [[e1|] w0]; [discriminate | reflexivity]. }
  rewrite EM in H.
  pose proof (OpenFile_calls env hourly (relink env linkFile w1)) as HO.
  destruct (os.OpenFile env hourly (relink env linkFile w1))
    as [[e2|f] w5] eqn:EO; [discriminate |].
  cbn [snd] in HO. injection H as <- <-.
  destruct (OpenFile_file _ _ _ _ _ EO) as (Hf & d & c & Hd & Hc & _).
  split; [reflexivity |].
  split; [exists (next_fid (relink env linkFile w1)); cbn [fd upd_fd]; by rewrite Hf |].
  split; [by exists d, c |].
  split; [| split; [| split]].
  - apply made_app. rewrite HO, relink_calls_found, HM. by rewrite <- !app_assoc.
  - intros HL. by apply Lstat_finds.
  - intros HS. apply (OpenFile_keeps _ _ _ _ _ linkFile _ EO).
    rewrite relink_eq. by apply Symlink_made.
  - intros HL HR HS HD.
    apply (OpenFile_keeps _ _ _ _ _ linkFile _ EO).
    by apply relink_ok.
Qed.

(** C8 (as the code has it): after every successful Init the writer
    holds a file opened on text_YYYY-MM-DD_HH.log of the current time
    (four, two, two and two digits, zero-padded) in the base directory,
    and the file that path leads to (links followed) exists.  Init made
    its calls in the order MkdirAll, Lstat of the alias text.log, Remove
    of the alias exactly when Lstat returned nil or an error that
    os.IsExist accepts (EEXIST, ENOTEMPTY; with no fault in Lstat:
    exactly when something was at the path), Symlink of the alias to the
    hourly file name, OpenFile.  The results of Remove and Symlink are
    dropped: the alias is the link to the hourly file name when Symlink
    returned nil, which it does when the system lets Lstat, Remove and
    Symlink through and the alias was not a directory with entries. *)
Theorem Init_opens_hourly_file_and_relinks env fw w fw' w' :
  Init env (fw, w) = (Ret None, (fw', w')) ->
  Time.valid (now env) = true ->
  let linkFile := filepath.Join [filepath fw'; "text.log"] in
  let hourly := filepath.Join [filepath fw'; logFile_of env] in
  let w1 := snd (os.MkdirAll env (filepath fw') w) in
  let lstat := fst (os.Lstat env linkFile w1) in
  let found :=
    match lstat with
    | None | Some ErrExist | Some ErrNotEmpty => true
    | Some _ => false
    end in
  (exists y m d h : string,
     logFile_of env
     = "text_" +:+ y +:+ "-" +:+ m +:+ "-" +:+ d +:+ "_" +:+ h +:+ ".log"
     /\ (String.length y = 4 /\ String.length m = 2
         /\ String.length d = 2 /\ String.length h = 2)%nat
     /\ Time.parse y = Some (Time.year (now env))
     /\ Time.parse m = Some (Time.month (now env))
     /\ Time.parse d = Some (Time.day (now env))
     /\ Time.parse h = Some (Time.hour (now env))
     /\ (Time.hour (now env) < 24)%nat)
  /\ (exists i, fd fw' = Some (mkFile i hourly false))
  /\ (exists d c,
        os.resolve_links (fs w') hourly = Some d /\ fs w' !! d = Some (Reg c))
  /\ made w w'
     = [CallMkdirAll (filepath fw'); CallLstat linkFile]
       ++ (if found then [CallRemove linkFile] else [])
       ++ [CallSymlink (logFile_of env) linkFile; CallOpenFile hourly]
  /\ (lstat_fault env = None ->
      (found = true <-> is_Some (fs w1 !! linkFile)))
  /\ (fst (os.Symlink env (logFile_of env) linkFile
             (before_Symlink env linkFile w1)) = None ->
      fs w' !! linkFile = Some (Lnk (logFile_of env)))
  /\ (lstat_fault env = None -> remove_fault env = None ->
      symlink_fault env = None ->
      (fs w1 !! linkFile = Some Dir -> os.has_entries (fs w1) linkFile = false) ->
      fs w' !! linkFile = Some (Lnk (logFile_of env))).
Proof.
  intros H Hv linkFile hourly w1 lstat found.
  destruct (Init_success env fw w fw' w' H) as (Hp & Hrest).
  subst found lstat w1 linkFile hourly. rewrite Hp.
  split; [by apply logFile_shape | exact Hrest].
Qed.

Lemma Init_opens_hourly_file_and_relinks_witness :
  let env := Sample.env_at (Sample.at_ 15 0 1) in
  let s' := snd (Init env Scenario.opened) in
  fd (fst s') = Some (mkFile 1 "/srv/app/logs/text_2024-03-07_15.log" false)
  /\ fs (snd s') !! "/srv/app/logs/text.log" = Some (Lnk "text_2024-03-07_15.log")
  /\ os.resolve_links (fs (snd s')) "/srv/app/logs/text.log"
     = Some "/srv/app/logs/text_2024-03-07_15.log".
Proof.
  intros env s'.
  pose proof (Init_opens_hourly_file_and_relinks env
                (fst Scenario.opened) (snd Scenario.opened) (fst s') (snd s')
                ltac:(vm_compute; reflexivity) eq_refl)
    as (_ & _ & _ & _ & _ & Hl & _).
  split; [vm_compute; reflexivity |].
  split; [exact (Hl ltac:(vm_compute; reflexivity)) | vm_compute; reflexivity].
Defined.

(** C8 as stated fails: the files of a run at 13 h are there, the
    system refuses to remove directory entries, and a writer is started
    at 14:59:59.  Remove fails, Symlink fails on the alias that is still
    there, both results are dropped, the file of 14 h is opened and Init
    returns no error; text.log still refers to the file of 13 h. *)
Lemma successful_Init_can_leave_old_alias :
  ~ Init_recreates_alias (Sample.env_no_remove (Sample.at_ 14 59 59))
      (Sample.fw, left_at_13).
Proof.
  intros H.
  specialize (H (snd (Init (Sample.env_no_remove (Sample.at_ 14 59 59))
                        (Sample.fw, left_at_13)))
                ltac:(vm_compute; reflexivity)).
  vm_compute in H. discriminate H.
Qed.

(** ** The base directory *)

Module PathFacts.
Import filepath.

Lemma IsAbs_nonempty p : IsAbs p = true -> (p =? "") = false.
Proof. by destruct p. Qed.

Lemma IsAbs_Clean p : IsAbs p = true -> IsAbs (Clean p) = true.
Proof.
  intros H. unfold Clean. rewrite (IsAbs_nonempty p H), H. reflexivity.
Qed.

Lemma IsAbs_append p q : IsAbs p = true -> IsAbs (p +:+ q) = true.
Proof. destruct p as [|c p]; [discriminate |]. intros H. exact H. Qed.

Lemma IsAbs_Join p x : IsAbs p = true -> IsAbs (Join [p; x]) = true.
Proof.
  intros H. unfold Join. rewrite (IsAbs_nonempty p H).
  apply IsAbs_Clean. cbn [join_slash]. by apply IsAbs_append.
Qed.

Lemma IsAbs_Getwd env wd : os.Getwd env = inr wd -> IsAbs wd = true.
Proof.
  unfold os.Getwd. destruct (cwd env); [| discriminate].
  intros H. by injection H as <-.
Qed.

End PathFacts.

Lemma resolve_abs env p : filepath.IsAbs p = true -> resolve env p = p.
Proof.
  intros H. unfold resolve.
  destruct p as [|c p]; [discriminate |]. cbn [String.length Nat.eqb].
  by rewrite H.
Qed.

Lemma resolve_empty env : resolve env "" = resolve env "./".
Proof. reflexivity. Qed.

(** With a working directory the resolved base directory is absolute. *)
Lemma resolve_IsAbs env p :
  is_Some (cwd env) \/ filepath.IsAbs p = true ->
  filepath.IsAbs (resolve env p) = true.
Proof.
  intros H. unfold resolve.
  set (p1 := if (String.length p =? 0)%nat then "./" else p).
  destruct (filepath.IsAbs p1) eqn:E1; [exact E1 |]. cbn [negb].
  destruct H as [[names Hn] | Hp].
  - unfold filepath.Abs. rewrite E1.
    destruct (os.Getwd env) as [e|wd] eqn:EG.
    + unfold os.Getwd in EG. by rewrite Hn in EG.
    + cbn [fst]. apply PathFacts.IsAbs_Join. by apply (PathFacts.IsAbs_Getwd env).
  - subst p1. destruct p as [|c p]; [discriminate |].
    cbn [String.length Nat.eqb] in E1. congruence.
Qed.

(** Without one, a relative base directory resolves to the empty path. *)
Lemma resolve_no_cwd env p :
  cwd env = None -> filepath.IsAbs p = false -> resolve env p = "".
Proof.
  intros Hc Hp. unfold resolve.
  set (p1 := if (String.length p =? 0)%nat then "./" else p).
  assert (E1 : filepath.IsAbs p1 = false).
  { subst p1. by destruct (String.length p =? 0)%nat. }
  rewrite E1. cbn [negb]. unfold filepath.Abs, os.Getwd. by rewrite E1, Hc.
Qed.

Lemma Init_filepath env s :
  filepath (fst (snd (Init env s))) = resolve env (filepath (fst s)).
Proof.
  rewrite Init_eq. unfold Init_run.
  destruct (os.MkdirAll env _ (snd s)) as [[e|] w1]; [reflexivity |].
  by destruct (os.OpenFile env _ _) as [[e|f] w5].
Qed.

(** The calls of one [Init], whatever its outcome. *)
Lemma Init_made env fw w :
  let p := resolve env (filepath fw) in
  let linkFile := filepath.Join [p; "text.log"] in
  let hourly := filepath.Join [p; logFile_of env] in
  let w' := snd (snd (Init env (fw, w))) in
  made w w' = [CallMkdirAll p]
  \/ exists rm,
       (rm = [] \/ rm = [CallRemove linkFile])
       /\ made w w'
          = [CallMkdirAll p; CallLstat linkFile] ++ rm
            ++ [CallSymlink (logFile_of env) linkFile; CallOpenFile hourly].
Proof.
  intros p linkFile hourly w'. subst w'. rewrite Init_eq. unfold Init_run.
  cbn [fst snd]. fold p. fold linkFile. fold hourly.
  pose proof (MkdirAll_calls env p w) as HM.
  destruct (os.MkdirAll env p w) as [[e1|] w1]; cbn [snd] in HM.
  { left. cbn [snd]. by apply made_app. }
  right.
  pose proof (OpenFile_calls env hourly (relink env linkFile w1)) as HO.
  destruct (relink_calls env linkFile w1) as (rm & Hrm & HR).
  exists rm. split; [exact Hrm |]. apply made_app.
  destruct (os.OpenFile env hourly (relink env linkFile w1)) as [[e2|f] w5];
    cbn [snd] in *; rewrite HO, HR, HM; by rewrite <- !app_assoc.
Qed.

Lemma Init_calls_absolute env fw w :
  filepath.IsAbs (resolve env (filepath fw)) = true ->
  forallb abs_call (made w (snd (snd (Init env (fw, w))))) = true.
Proof.
  intros Hp.
  pose proof (PathFacts.IsAbs_Join _ "text.log" Hp) as Hl.
  pose proof (PathFacts.IsAbs_Join _ (logFile_of env) Hp) as Hh.
  destruct (Init_made env fw w) as [-> | (rm & [-> | ->] & ->)];
    cbn [forallb abs_call app]; by rewrite ?Hp, ?Hl, ?Hh.
Qed.

Lemma before_reinit_filepath env s :
  filepath (fst (before_reinit env s)) = filepath (fst s).
Proof.
  unfold before_reinit. by destruct (os.Close env _ _) as [[e f] w2].
Qed.

Lemma Write_filepath LE env msg lvl s :
  filepath.IsAbs (filepath (fst s)) = true ->
  filepath (fst (snd (Write LE env msg lvl s))) = filepath (fst s).
Proof.
  intros Habs. rewrite Write_run. unfold checkFile_run.
  rewrite after_alert_fst.
  destruct (hourlyTicker.pending (ticker (fst s))).
  - pose proof (Init_filepath env (before_reinit env (after_alert LE msg lvl s))) as HI.
    rewrite Init_eq, before_reinit_filepath, after_alert_fst in HI.
    rewrite (resolve_abs env _ Habs) in HI.
    by destruct (Init_run env _) as [[r|e] s2].
  - cbn [fst snd]. by rewrite after_alert_fst.
Qed.

Lemma Init_empty_is_dot env fw w :
  Init env (upd_filepath "" fw, w) = Init env (upd_filepath "./" fw, w).
Proof. rewrite !Init_eq. reflexivity. Qed.

Lemma Init_no_cwd env fw w :
  cwd env = None -> filepath.IsAbs (filepath fw) = false ->
  Init env (fw, w)
  = (Panic ErrNotExist, (upd_filepath "" fw, os.record (CallMkdirAll "") w)).
Proof.
  intros Hc Hp.
  pose proof (Init_mkdir_failed env fw w ErrNotExist) as H.
  rewrite (resolve_no_cwd env _ Hc Hp) in H. by apply H.
Qed.

Lemma Init_base_directory env fw w :
  let s' := snd (Init env (fw, w)) in
  Init env (upd_filepath "" fw, w) = Init env (upd_filepath "./" fw, w)
  /\ filepath (fst s') = resolve env (filepath fw)
  /\ (is_Some (cwd env) \/ filepath.IsAbs (filepath fw) = true ->
      filepath.IsAbs (filepath (fst s')) = true
      /\ forallb abs_call (made w (snd s')) = true
      /\ (forall LE env' msg lvl,
            filepath (fst (snd (Write LE env' msg lvl s'))) = filepath (fst s'))
      /\ (forall env',
            filepath (fst (snd (Init env' s'))) = filepath (fst s')))
  /\ (forall r, fst (Init env (fw, w)) = Ret r ->
      filepath.IsAbs (filepath (fst s')) = true)
  /\ (cwd env = None -> filepath.IsAbs (filepath fw) = false ->
      Init env (fw, w)
      = (Panic ErrNotExist, (upd_filepath "" fw, os.record (CallMkdirAll "") w))).
Proof.
  intros s'.
  assert (Hfp : filepath (fst s') = resolve env (filepath fw))
    by apply Init_filepath.
  assert (Habs : is_Some (cwd env) \/ filepath.IsAbs (filepath fw) = true ->
                 filepath.IsAbs (filepath (fst s')) = true).
  { intros H. rewrite Hfp. by apply resolve_IsAbs. }
  split; [apply Init_empty_is_dot |]. split; [exact Hfp |].
  split; [| split].
  - intros H. pose proof (Habs H) as Ha. split; [exact Ha |]. split.
    + apply Init_calls_absolute. by rewrite <- Hfp.
    + split.
      * intros LE env' msg lvl. by apply Write_filepath.
      * intros env'. rewrite Init_filepath. by apply resolve_abs.
  - intros r Hr. apply Habs.
    destruct (cwd env) as [names|] eqn:Ec; [left; by eexists |].
    destruct (filepath.IsAbs (filepath fw)) eqn:Ep; [by right |].
    rewrite (Init_no_cwd env fw w Ec Ep) in Hr. discriminate Hr.
  - apply Init_no_cwd.
Qed.

(** C10 (as the code has it): Init treats an empty base directory as
    "./" and stores the resolved base directory.  When the working
    directory can be determined (or the base directory is absolute
    already), the stored path is absolute, every path Init creates or
    looks at is absolute, and later calls of Write and Init leave the
    stored path as it is.  The error of filepath.Abs is dropped: when
    the working directory cannot be determined, a relative base
    directory becomes the empty path and Init panics in MkdirAll, having
    created nothing.  Whenever Init returns, the stored path is
    absolute. *)
Theorem Init_resolves_base_directory env fw w :
  let s' := snd (Init env (fw, w)) in
  Init env (upd_filepath "" fw, w) = Init env (upd_filepath "./" fw, w)
  /\ filepath (fst s') = resolve env (filepath fw)
  /\ (is_Some (cwd env) \/ filepath.IsAbs (filepath fw) = true ->
      filepath.IsAbs (filepath (fst s')) = true
      /\ forallb abs_call (made w (snd s')) = true
      /\ (forall LE env' msg lvl,
            filepath (fst (snd (Write LE env' msg lvl s'))) = filepath (fst s'))
      /\ (forall env',
            filepath (fst (snd (Init env' s'))) = filepath (fst s')))
  /\ (forall r, fst (Init env (fw, w)) = Ret r ->
      filepath.IsAbs (filepath (fst s')) = true)
  /\ (cwd env = None -> filepath.IsAbs (filepath fw) = false ->
      Init env (fw, w)
      = (Panic ErrNotExist, (upd_filepath "" fw, os.record (CallMkdirAll "") w))).
Proof. apply Init_base_directory. Qed.

Lemma Init_resolves_base_directory_witness :
  let s' := snd (Init Sample.env (upd_filepath "" Sample.fw, Sample.w)) in
  filepath (fst s') = "/srv/app"
  /\ filepath.IsAbs (filepath (fst s')) = true
  /\ forallb abs_call (made Sample.w (snd s')) = true.
Proof.
  intros s'.
  pose proof (Init_resolves_base_directory Sample.env
                (upd_filepath "" Sample.fw) Sample.w)
    as (_ & Hfp & H & _).
  destruct (H (or_introl (ex_intro _ ["srv"; "app"] eq_refl)))
    as (Ha & Hc & _).
  split; [exact Hfp |]. split; [exact Ha | exact Hc].
Defined.

(** C10 as stated fails: the base directory is "logs" and the system
    cannot tell the working directory; filepath.Abs returns the empty
    path with an error, Init stores the empty path and panics. *)
Lemma filepath_can_stay_relative :
  ~ Init_makes_filepath_absolute (Sample.env_no_cwd (Sample.at_ 14 59 59))
      (Sample.fw, Sample.w).
Proof.
  unfold Init_makes_filepath_absolute.
  rewrite (Init_no_cwd (Sample.env_no_cwd (Sample.at_ 14 59 59))
             Sample.fw Sample.w eq_refl eq_refl).
  discriminate.
Qed.

(** ** When [Write] returns, and when it does not *)

Lemma Sync_calls env f w : calls (snd (os.Sync env f w)) = calls w ++ [CallSync f].
Proof. unfold os.Sync. by destruct (os.usable f). Qed.

Lemma before_reinit_calls env s :
  calls (snd (before_reinit env s))
  = calls (snd s) ++ [CallSync (fd (fst s)); CallClose (fd (fst s))].
Proof.
  unfold before_reinit. rewrite os_Close_run. cbn [snd os.record calls fd upd_ticker].
  rewrite Sync_calls. by rewrite <- app_assoc.
Qed.





(** ** Two runs of the sample writer *)

(** Opened at 14:59:59, "hello" goes to the file of 14 h; the tick of
    15:00:00 is taken; "world", written at 15:00:01, goes to the new
    file of 15 h, the alias refers to it, and the file of 14 h is as it
    was. *)
Example rotation_at_the_hour :
  let s1 := snd (Write 4%Z Sample.env "hello" 0%Z Scenario.opened) in
  let s2 := background [hourlyTicker.Tick (Sample.at_ 15 0 0)] s1 in
  let r := Write 4%Z (Sample.env_at (Sample.at_ 15 0 1)) "world" 0%Z s2 in
  fst r = Ret None
  /\ fs (snd (snd r)) !! "/srv/app/logs/text_2024-03-07_14.log" = Some (Reg "hello")
  /\ fs (snd (snd r)) !! "/srv/app/logs/text_2024-03-07_15.log" = Some (Reg "world")
  /\ fs (snd (snd r)) !! "/srv/app/logs/text.log" = Some (Lnk "text_2024-03-07_15.log").
Proof. vm_compute. repeat split. Qed.

(** A link is at the path of the hourly file: OpenFile follows it, Init
    returns nil, and the message goes to the file the link leads to;
    the link stays. *)
Example Write_through_a_link :
  let w0 :=
    mkWorld (<["/srv/app/logs/text_2024-03-07_14.log" := Lnk "other.txt"]> ∅)
      0 [] in
  let s1 := snd (Init Sample.env (Sample.fw, w0)) in
  let r := Write 4%Z Sample.env "hello" 0%Z s1 in
  fst (Init Sample.env (Sample.fw, w0)) = Ret None
  /\ fst r = Ret None
  /\ fs (snd (snd r)) !! "/srv/app/logs/other.txt" = Some (Reg "hello")
  /\ fs (snd (snd r)) !! "/srv/app/logs/text_2024-03-07_14.log"
     = Some (Lnk "other.txt").
Proof. vm_compute. repeat split. Qed.

(** A directory with an entry is at the path of the alias: Remove fails
    on it, Symlink fails on what is still there, both results are
    dropped, and Init returns nil with the directory in place. *)
Example alias_is_a_directory_with_entries :
  let w0 :=
    mkWorld (<["/srv/app/logs/text.log" := Dir]>
               (<["/srv/app/logs/text.log/keep" := Reg "x"]> ∅)) 0 [] in
  let r := Init Sample.env (Sample.fw, w0) in
  fst r = Ret None
  /\ fs (snd (snd r)) !! "/srv/app/logs/text.log" = Some Dir
  /\ fs (snd (snd r)) !! "/srv/app/logs/text.log/keep" = Some (Reg "x")
  /\ made w0 (snd (snd r))
     = [CallMkdirAll "/srv/app/logs"; CallLstat "/srv/app/logs/text.log";
        CallRemove "/srv/app/logs/text.log";
        CallSymlink "text_2024-03-07_14.log" "/srv/app/logs/text.log";
        CallOpenFile "/srv/app/logs/text_2024-03-07_14.log"].
Proof. vm_compute. repeat split. Qed.

(** The disk is full: Write returns the error of the byte write, and
    the alert for "disk full" was sent, whether the webhook answers 200,
    500 or not at all. *)
Example disk_full_is_reported_and_alerted :
  forallb
    (fun ans =>
       let r := Write 4%Z (Sample.env_disk_full (Sample.at_ 14 59 59) ans)
                  "disk full" 4%Z Scenario.opened in
       match fst r with
       | Ret (Some ErrNoSpace) =>
           match posts_of (made (snd Scenario.opened) (snd (snd r))) with
           | [(u, m)] =>
               String.eqb u "http://hooks.example/T1"
               && String.eqb (Text m) "disk full"
               && String.eqb (Username m) "logbot"
               && String.eqb (Channel m) "#ops"
           | _ => false
           end
       | _ => false
       end)
    [inr 200; inr 500; inl (ErrNet "timeout")]
  = true.
Proof. vm_compute. reflexivity. Qed.

(** * Further properties of the writer *)

(** ** The level and the alert settings *)

Lemma Init_config env s : config (fst (snd (Init env s))) = config (fst s).
Proof.
  rewrite Init_eq. unfold Init_run.
  destruct (os.MkdirAll env _ (snd s)) as [[e|] w1]; [reflexivity |].
  by destruct (os.OpenFile env _ _) as [[e|f] w5].
Qed.

Lemma before_reinit_config env s :
  config (fst (before_reinit env s)) = config (fst s).
Proof.
  unfold before_reinit. by destruct (os.Close env _ _) as [[e f] w2].
Qed.

Lemma Write_config LE env msg lvl s :
  config (fst (snd (Write LE env msg lvl s))) = config (fst s).
Proof.
  rewrite Write_run. unfold checkFile_run. rewrite after_alert_fst.
  destruct (hourlyTicker.pending (ticker (fst s))).
  - pose proof (Init_config env (before_reinit env (after_alert LE msg lvl s))) as H.
    rewrite Init_eq, before_reinit_config, after_alert_fst in H.
    by destruct (Init_run env _) as [[r|e] s2].
  - cbn [fst snd]. by rewrite after_alert_fst.
Qed.

Lemma Flush_state env fw w :
  Flush env (fw, w)
  = (Ret (match os.usable (fd fw) with
          | inl e => Some e
          | inr _ => sync_fault env
          end),
     (fw, os.record (CallSync (fd fw)) w)).
Proof.
  unfold Flush. rewrite fd_Sync_run. unfold os.Sync.
  by destruct (os.usable (fd fw)).
Qed.

(** X1: GetLevel returns the level last given to SetLevel, also after
    any Write, Init, Flush or Close in between; SetLevel changes nothing
    but the level, and none of these methods changes the level, the
    endpoint or the identity of the alerts. *)
Theorem level_is_kept_until_set LE env l (s : State) msg lvl :
  let s1 := snd (SetLevel l s) in
  fst (GetLevel s1) = Ret l
  /\ s1 = (upd_level l (fst s), snd s)
  /\ snd (GetLevel s1) = s1
  /\ fst (GetLevel (snd (Write LE env msg lvl s1))) = Ret l
  /\ fst (GetLevel (snd (Init env s1))) = Ret l
  /\ fst (GetLevel (snd (Flush env s1))) = Ret l
  /\ fst (GetLevel (snd (Close env s1))) = Ret l
  /\ config (fst (snd (Write LE env msg lvl s))) = config (fst s)
  /\ config (fst (snd (Init env s))) = config (fst s)
  /\ config (fst (snd (Flush env s))) = config (fst s)
  /\ config (fst (snd (Close env s))) = config (fst s).
Proof.
  intros s1.
  assert (HG : forall s0 : State, fst (GetLevel s0) = Ret (level (fst s0)))
    by reflexivity.
  assert (HL : forall s2 : State, config (fst s2) = config (fst s1) ->
                                  level (fst s2) = l).
  { intros s2 H. by injection H as -> _ _. }
  destruct s as [fw w].
  repeat split; rewrite ?HG; try (f_equal; apply HL).
  - apply Write_config.
  - apply Init_config.
  - subst s1. unfold SetLevel, set_level, modify. cbn [fst snd].
    by rewrite Flush_state.
  - subst s1. unfold SetLevel, set_level, modify. cbn [fst snd].
    by rewrite Close_state.
  - apply Write_config.
  - apply Init_config.
  - by rewrite Flush_state.
  - by rewrite Close_state.
Qed.

(** ** Before the first [Init], and after [Close] *)

Lemma Close_run env fw w :
  Close env (fw, w)
  = (Ret (match os.usable (fd fw) with
          | inl e => Some e
          | inr _ => close_fault env
          end),
     (upd_fd (closed_fd (fd fw)) fw, os.record (CallClose (fd fw)) w)).
Proof.
  unfold Close. rewrite fd_Close_run. unfold os.Close, os.usable.
  destruct (fd fw) as [[i n []]|]; reflexivity.
Qed.

Lemma Write_unusable_idle LE env fw w msg lvl e :
  hourlyTicker.pending (ticker fw) = false ->
  os.usable (fd fw) = inl e ->
  Write LE env msg lvl (fw, w)
  = (Ret (Some e),
     (fw, os.record (CallWrite (fd fw) msg) (snd (after_alert LE msg lvl (fw, w))))).
Proof.
  intros Hp Hu. rewrite Write_run. unfold checkFile_run.
  rewrite after_alert_fst. cbn [fst]. rewrite Hp. cbn [fst snd].
  rewrite after_alert_fst. cbn [fst].
  by rewrite (os_Write_unusable env _ msg _ _ Hu).
Qed.

(** X2: on a writer as NewFileWriter returns it (no Init yet), Write,
    Flush and Close do not panic: each returns the invalid-argument
    error of the nil descriptor, and leaves the writer and the files as
    they were; Write still forwards the alert of a message at or above
    LevelError. *)
Theorem methods_before_Init LE env start fp name u ch w msg lvl :
  let fw := NewFileWriter start fp name u ch in
  Write LE env msg lvl (fw, w)
  = (Ret (Some ErrInvalid),
     (fw, os.record (CallWrite None msg) (snd (after_alert LE msg lvl (fw, w)))))
  /\ fs (snd (snd (Write LE env msg lvl (fw, w)))) = fs w
  /\ Flush env (fw, w) = (Ret (Some ErrInvalid), (fw, os.record (CallSync None) w))
  /\ Close env (fw, w) = (Ret (Some ErrInvalid), (fw, os.record (CallClose None) w)).
Proof.
  intros fw.
  assert (HW : Write LE env msg lvl (fw, w)
               = (Ret (Some ErrInvalid),
                  (fw, os.record (CallWrite None msg)
                         (snd (after_alert LE msg lvl (fw, w))))))
    by (by apply Write_unusable_idle).
  split; [exact HW |]. split.
  - rewrite HW. cbn [fst snd os.record fs]. apply after_alert_fs.
  - split; [by rewrite Flush_state | by rewrite Close_run].
Qed.

Lemma closed_fd_idem f : closed_fd (closed_fd f) = closed_fd f.
Proof. by destruct f. Qed.

(** X3: once Close has been called, a further Close and a Flush return
    the error of the closed descriptor (file already closed; invalid
    argument when no file was ever opened) instead of panicking, and
    change neither the writer nor the files; the descriptor stays
    closed. *)
Theorem Close_and_Flush_after_Close envC env fw w :
  let s1 := snd (Close envC (fw, w)) in
  Close env s1
  = (Ret (Some (closed_error (fd fw))),
     (fst s1, os.record (CallClose (fd (fst s1))) (snd s1)))
  /\ Flush env s1
     = (Ret (Some (closed_error (fd fw))),
        (fst s1, os.record (CallSync (fd (fst s1))) (snd s1)))
  /\ os.usable (fd (fst s1)) = inl (closed_error (fd fw))
  /\ fs (snd s1) = fs w.
Proof.
  intros s1. subst s1. rewrite Close_run. cbn [fst snd].
  pose proof (usable_closed_fd (fd fw)) as Hu.
  split; [| split; [| split; [exact Hu | reflexivity]]].
  - rewrite Close_run. cbn [fd upd_fd]. rewrite Hu, closed_fd_idem.
    reflexivity.
  - rewrite Flush_state. cbn [fd upd_fd]. by rewrite Hu.
Qed.

(** ** What [Write] and [Init] do to the files *)

Lemma os_Write_ok env f data w c :
  fclosed f = false -> write_fault env = None ->
  fs w !! fname f = Some (Reg c) ->
  os.Write env (Some f) data w
  = (None, os.set_fs (<[fname f := Reg (c +:+ data)]> (fs w))
             (os.record (CallWrite (Some f) data) w)).
Proof.
  intros Hc Hf Hl. unfold os.Write, os.usable, os.data_path. rewrite Hc, Hf.
  cbn [os.record fs]. by rewrite (resolve_links_file _ _ _ Hl), Hl.
Qed.

(** The bytes go to the file the name of the descriptor leads to. *)
Lemma os_Write_at env f data w d c :
  fclosed f = false -> write_fault env = None ->
  os.data_path (fs w) f = Some d -> fs w !! d = Some (Reg c) ->
  os.Write env (Some f) data w
  = (None, os.set_fs (<[d := Reg (c +:+ data)]> (fs w))
             (os.record (CallWrite (Some f) data) w)).
Proof.
  intros Hc Hf Hd Hl. unfold os.Write, os.usable. rewrite Hc, Hf.
  cbn [os.record fs]. by rewrite Hd, Hl.
Qed.


Lemma Write_appends_idle LE env fw w msg lvl f c :
  hourlyTicker.pending (ticker fw) = false ->
  fd fw = Some f -> fclosed f = false ->
  write_fault env = None ->
  fs w !! fname f = Some (Reg c) ->
  fst (Write LE env msg lvl (fw, w)) = Ret None
  /\ fst (snd (Write LE env msg lvl (fw, w))) = fw
  /\ fs (snd (snd (Write LE env msg lvl (fw, w))))
     = <[fname f := Reg (c +:+ msg)]> (fs w).
Proof.
  intros Hp Hfd Hc Hf Hl. rewrite Write_run. unfold checkFile_run.
  rewrite after_alert_fst. cbn [fst]. rewrite Hp. cbn [fst snd].
  rewrite after_alert_fst. cbn [fst]. rewrite Hfd.
  rewrite (os_Write_ok env f msg _ c Hc Hf)
    by (by rewrite after_alert_fs).
  cbn [fst snd os.set_fs os.record fs]. by rewrite after_alert_fs.
Qed.

Lemma Write_appends_at LE env fw w msg lvl f d c :
  hourlyTicker.pending (ticker fw) = false ->
  fd fw = Some f -> fclosed f = false ->
  write_fault env = None ->
  os.data_path (fs w) f = Some d -> fs w !! d = Some (Reg c) ->
  fst (Write LE env msg lvl (fw, w)) = Ret None
  /\ fst (snd (Write LE env msg lvl (fw, w))) = fw
  /\ fs (snd (snd (Write LE env msg lvl (fw, w))))
     = <[d := Reg (c +:+ msg)]> (fs w).
Proof.
  intros Hp Hfd Hc Hf Hd Hl. rewrite Write_run. unfold checkFile_run.
  rewrite after_alert_fst. cbn [fst]. rewrite Hp. cbn [fst snd].
  rewrite after_alert_fst. cbn [fst]. rewrite Hfd.
  rewrite (os_Write_at env f msg _ d c Hc Hf)
    by (by rewrite after_alert_fs).
  cbn [fst snd os.set_fs os.record fs]. by rewrite after_alert_fs.
Qed.

(** X4: a Write that finds no pending boundary event, on an open
    descriptor whose file is in place and with no write error from the
    system, returns nil, leaves the writer as it is, and appends exactly
    the message to the file of the descriptor, every other path being
    untouched; a second such Write appends after the first, so the file
    holds the messages in call order. *)
Theorem Write_appends_in_call_order LE env1 env2 fw w m1 l1 m2 l2 f c :
  hourlyTicker.pending (ticker fw) = false ->
  fd fw = Some f -> fclosed f = false ->
  write_fault env1 = None -> write_fault env2 = None ->
  fs w !! fname f = Some (Reg c) ->
  let r1 := Write LE env1 m1 l1 (fw, w) in
  let r2 := Write LE env2 m2 l2 (snd r1) in
  fst r1 = Ret None /\ fst r2 = Ret None
  /\ fst (snd r1) = fw /\ fst (snd r2) = fw
  /\ fs (snd (snd r1)) = <[fname f := Reg (c +:+ m1)]> (fs w)
  /\ fs (snd (snd r2)) = <[fname f := Reg (c +:+ m1 +:+ m2)]> (fs w).
Proof.
  intros Hp Hfd Hc Hf1 Hf2 Hl r1 r2.
  destruct (Write_appends_idle LE env1 fw w m1 l1 f c Hp Hfd Hc Hf1 Hl)
    as (Hr1 & Hfw1 & Hfs1).
  fold r1 in Hr1, Hfw1, Hfs1.
  assert (Hl1 : fs (snd (snd r1)) !! fname f = Some (Reg (c +:+ m1)))
    by (rewrite Hfs1; apply lookup_insert_eq).
  destruct (Write_appends_idle LE env2 (fst (snd r1)) (snd (snd r1)) m2 l2 f
              (c +:+ m1)) as (Hr2 & Hfw2 & Hfs2);
    try (rewrite Hfw1); try assumption.
  replace (fst (snd r1), snd (snd r1)) with (snd r1) in Hr2, Hfw2, Hfs2
    by (by destruct (snd r1)).
  fold r2 in Hr2, Hfw2, Hfs2.
  repeat split; try assumption.
  - by rewrite Hfw2.
  - rewrite Hfs2, Hfs1, insert_insert_eq.
    by rewrite TimeFacts.append_assoc.
Qed.

Lemma Write_appends_in_call_order_witness :
  let r1 := Write 4%Z Sample.env "a" 0%Z Scenario.opened in
  let r2 := Write 4%Z Sample.env "b" 5%Z (snd r1) in
  fs (snd (snd r2)) !! "/srv/app/logs/text_2024-03-07_14.log" = Some (Reg "ab").
Proof.
  intros r1 r2.
  pose proof (Write_appends_in_call_order 4%Z Sample.env Sample.env
                (fst Scenario.opened) (snd Scenario.opened) "a" 0%Z "b" 5%Z
                (mkFile 0 "/srv/app/logs/text_2024-03-07_14.log" false) ""
                eq_refl eq_refl eq_refl eq_refl eq_refl
                ltac:(vm_compute; reflexivity))
    as (_ & _ & _ & _ & _ & H).
  change (fst Scenario.opened, snd Scenario.opened) with Scenario.opened in H.
  subst r2 r1. rewrite H. apply lookup_insert_eq.
Defined.

Lemma MkdirAll_keeps env p w q n :
  fs w !! q = Some n -> fs (snd (os.MkdirAll env p w)) !! q = Some n.
Proof.
  intros Hq. unfold os.MkdirAll.
  destruct (p =? ""); [exact Hq |].
  destruct (mkdir_fault env); [exact Hq |]. cbn [os.record fs].
  destruct (fs w !! p) as [[c|t|]|] eqn:E; cbn [snd os.set_fs fs]; try exact Hq.
  - by repeat case_match.
  - rewrite lookup_insert_ne; [exact Hq | congruence].
Qed.

Lemma relink_keeps env l w q n :
  q <> l -> fs w !! q = Some n -> fs (relink env l w) !! q = Some n.
Proof.
  intros Hne Hq. unfold relink, os.Lstat, os.Remove, os.Symlink.
  assert (Hd : delete l (fs w) !! q = Some n)
    by (by rewrite lookup_delete_ne).
  assert (Hi : forall m : gmap string node,
             m !! q = Some n -> <[l := Lnk (logFile_of env)]> m !! q = Some n)
    by (intros m Hm; by rewrite lookup_insert_ne).
  repeat (case_match; simplify_eq; cbn [fst snd fs os.record os.set_fs] in *);
    auto.
Qed.

Lemma OpenFile_keeps_any env p w q n :
  fs w !! q = Some n -> fs (snd (os.OpenFile env p w)) !! q = Some n.
Proof.
  intros Hq. unfold os.OpenFile.
  destruct (open_fault env); [exact Hq |]. cbn [os.record fs next_fid].
  destruct (os.resolve_links (fs w) p) as [d|]; [| exact Hq].
  destruct (fs w !! d) as [[c|t|]|] eqn:E; cbn [snd fs]; try exact Hq.
  rewrite lookup_insert_ne; [exact Hq | congruence].
Qed.

Lemma Init_keeps env fw w q n :
  q <> filepath.Join [resolve env (filepath fw); "text.log"] ->
  fs w !! q = Some n ->
  fs (snd (snd (Init env (fw, w)))) !! q = Some n.
Proof.
  intros Hne Hq. rewrite Init_eq. unfold Init_run. cbn [fst snd].
  pose proof (MkdirAll_keeps env (resolve env (filepath fw)) w q n Hq) as HM.
  destruct (os.MkdirAll env _ w) as [[e|] w1]; cbn [snd] in HM; [exact HM |].
  pose proof (relink_keeps env _ w1 q n Hne HM) as HR.
  pose proof (OpenFile_keeps_any env
                (filepath.Join [resolve env (filepath fw); logFile_of env])
                _ q n HR) as HO.
  by destruct (os.OpenFile env _ _) as [[e|f] w5].
Qed.

(** X5: whatever its outcome, Init leaves in place everything that was
    in the file system, except what is at the path of the alias
    text.log: it never truncates, removes or replaces another file,
    link or directory. *)
Theorem Init_only_replaces_the_alias env fw w q n :
  q <> filepath.Join [resolve env (filepath fw); "text.log"] ->
  fs w !! q = Some n ->
  fs (snd (snd (Init env (fw, w)))) !! q = Some n.
Proof. apply Init_keeps. Qed.

Lemma Init_only_replaces_the_alias_witness :
  fs (snd (snd (Init (Sample.env_at (Sample.at_ 15 0 1)) Scenario.opened)))
    !! "/srv/app/logs/text_2024-03-07_14.log" = Some (Reg "").
Proof.
  exact (Init_only_replaces_the_alias (Sample.env_at (Sample.at_ 15 0 1))
           (fst Scenario.opened) (snd Scenario.opened)
           "/srv/app/logs/text_2024-03-07_14.log" (Reg "")
           ltac:(vm_compute; discriminate) ltac:(vm_compute; reflexivity)).
Defined.






(** ** [Init] followed by [Write], and a rotation that succeeds *)

Lemma Init_ticker env s : ticker (fst (snd (Init env s))) = ticker (fst s).
Proof.
  rewrite Init_eq. unfold Init_run.
  destruct (os.MkdirAll env _ (snd s)) as [[e|] w1]; [reflexivity |].
  by destruct (os.OpenFile env _ _) as [[e|f] w5].
Qed.

Lemma Write_after_Init LE env env2 fw w fw' w' msg lvl :
  Init env (fw, w) = (Ret None, (fw', w')) ->
  hourlyTicker.pending (ticker fw) = false ->
  write_fault env2 = None ->
  let hourly := filepath.Join [filepath fw'; logFile_of env] in
  exists i d c,
    fd fw' = Some (mkFile i hourly false)
    /\ os.resolve_links (fs w') hourly = Some d
    /\ ((forall t, fs w' !! hourly <> Some (Lnk t)) -> d = hourly)
    /\ fs w' !! d = Some (Reg c)
    /\ fst (Write LE env2 msg lvl (fw', w')) = Ret None
    /\ fst (snd (Write LE env2 msg lvl (fw', w'))) = fw'
    /\ fs (snd (snd (Write LE env2 msg lvl (fw', w'))))
       = <[d := Reg (c +:+ msg)]> (fs w').
Proof.
  intros HI Hp Hf hourly.
  destruct (Init_success env fw w fw' w' HI)
    as (Hfp & (i & Hfd) & (d & c & Hd & Hc) & _).
  subst hourly. rewrite Hfp. exists i, d, c.
  split; [exact Hfd |]. split; [exact Hd |].
  split.
  { intros Hn. rewrite (resolve_links_here _ _ Hn) in Hd. by injection Hd. }
  split; [exact Hc |].
  pose proof (Init_ticker env (fw, w)) as Ht. rewrite HI in Ht. cbn [fst snd] in Ht.
  apply (Write_appends_at LE env2 fw' w' msg lvl
           (mkFile i (filepath.Join [resolve env (filepath fw); logFile_of env])
              false) d c);
    [by rewrite Ht | exact Hfd | reflexivity | exact Hf | exact Hd | exact Hc].
Qed.

(** X7: when Init has returned nil, the writer holds an open descriptor
    opened with the hourly path of the base directory; the file that
    path leads to exists (it is at the path itself unless a link is
    there, which OpenFile follows), and a Write that follows (no
    boundary event pending, no write error from the system) returns nil
    and appends the message to that file. *)
Theorem Write_after_successful_Init LE env env2 fw w fw' w' msg lvl :
  Init env (fw, w) = (Ret None, (fw', w')) ->
  hourlyTicker.pending (ticker fw) = false ->
  write_fault env2 = None ->
  let hourly := filepath.Join [filepath fw'; logFile_of env] in
  exists i d c,
    fd fw' = Some (mkFile i hourly false)
    /\ os.resolve_links (fs w') hourly = Some d
    /\ ((forall t, fs w' !! hourly <> Some (Lnk t)) -> d = hourly)
    /\ fs w' !! d = Some (Reg c)
    /\ fst (Write LE env2 msg lvl (fw', w')) = Ret None
    /\ fst (snd (Write LE env2 msg lvl (fw', w'))) = fw'
    /\ fs (snd (snd (Write LE env2 msg lvl (fw', w'))))
       = <[d := Reg (c +:+ msg)]> (fs w').
Proof. apply Write_after_Init. Qed.

Lemma Write_after_successful_Init_witness :
  let s' := snd (Init Sample.env (Sample.fw, Sample.w)) in
  let hourly := filepath.Join [filepath (fst s'); logFile_of Sample.env] in
  exists c,
    fs (snd (snd (Write 4%Z Sample.env "hello" 0%Z (fst s', snd s'))))
      !! hourly = Some (Reg (c +:+ "hello")).
Proof.
  intros s' hourly.
  destruct (Write_after_successful_Init 4%Z Sample.env Sample.env
              Sample.fw Sample.w (fst s') (snd s') "hello" 0%Z
              ltac:(vm_compute; reflexivity) eq_refl eq_refl)
    as (i & d & c & _ & _ & Hd & _ & _ & _ & H).
  exists c. rewrite H.
  rewrite (Hd ltac:(vm_compute; intros t; discriminate)).
  apply lookup_insert_eq.
Defined.

Lemma before_reinit_ticker env s :
  ticker (fst (before_reinit env s)) = snd (hourlyTicker.receive (ticker (fst s))).
Proof.
  unfold before_reinit. by destruct (os.Close env _ _) as [[e f] w2].
Qed.

Lemma Init_calls_split env s :
  calls (snd (snd (Init env s)))
  = calls (snd s) ++ made (snd s) (snd (snd (Init env s))).
Proof.
  destruct (Init_no_post env s) as (d & E & _).
  by rewrite (made_app _ _ d E).
Qed.

Lemma Write_rotation_ok LE env fw w msg lvl tm h fw2 w2 :
  hourlyTicker.state (ticker fw) = hourlyTicker.Sending tm h ->
  Init env (before_reinit env (after_alert LE msg lvl (fw, w)))
  = (Ret None, (fw2, w2)) ->
  write_fault env = None ->
  let p := resolve env (filepath fw) in
  let hourly := filepath.Join [p; logFile_of env] in
  let linkFile := filepath.Join [p; "text.log"] in
  let r := Write LE env msg lvl (fw, w) in
  exists i d c rm,
    fst r = Ret None
    /\ fd (fst (snd r)) = Some (mkFile i hourly false)
    /\ ticker (fst (snd r))
       = hourlyTicker.mk (hourlyTicker.Selecting (Time.Hour tm))
           (hourlyTicker.quit_closed (ticker fw))
    /\ os.resolve_links (fs w2) hourly = Some d
    /\ ((forall t, fs w2 !! hourly <> Some (Lnk t)) -> d = hourly)
    /\ fs w2 !! d = Some (Reg c)
    /\ fs (snd (snd r)) = <[d := Reg (c +:+ msg)]> (fs w2)
    /\ (rm = [] \/ rm = [CallRemove linkFile])
    /\ made (snd (after_alert LE msg lvl (fw, w))) (snd (snd r))
       = [CallSync (fd fw); CallClose (fd fw); CallMkdirAll p; CallLstat linkFile]
         ++ rm
         ++ [CallSymlink (logFile_of env) linkFile; CallOpenFile hourly;
             CallWrite (Some (mkFile i hourly false)) msg].
Proof.
  intros Hst HI Hf p hourly linkFile r.
  set (sa := after_alert LE msg lvl (fw, w)) in *.
  set (sb := before_reinit env sa) in *.
  assert (Hfa : fst sa = fw) by apply after_alert_fst.
  assert (Hfpb : filepath (fst sb) = filepath fw)
    by (subst sb; by rewrite before_reinit_filepath, Hfa).
  pose proof (Init_success env (fst sb) (snd sb) fw2 w2) as HS.
  replace (fst sb, snd sb) with sb in HS by (by destruct sb).
  specialize (HS HI). cbv zeta in HS. rewrite Hfpb in HS.
  fold p in HS. fold hourly in HS. fold linkFile in HS.
  destruct HS as (_ & (i & Hfd) & (d & c & Hd & Hc) & Hmade & _).
  set (rm := if found_by_Lstat _ then [CallRemove linkFile] else []) in Hmade.
  assert (Hrm : rm = [] \/ rm = [CallRemove linkFile])
    by (subst rm; destruct (found_by_Lstat _); auto).
  assert (Ht : ticker fw2
               = hourlyTicker.mk (hourlyTicker.Selecting (Time.Hour tm))
                   (hourlyTicker.quit_closed (ticker fw))).
  { pose proof (Init_ticker env sb) as H. rewrite HI in H. cbn [fst snd] in H.
    rewrite H. subst sb. rewrite before_reinit_ticker, Hfa.
    unfold hourlyTicker.receive. by rewrite Hst. }
  assert (Hcalls : calls w2
                   = calls (snd sa)
                     ++ [CallSync (fd fw); CallClose (fd fw)]
                     ++ [CallMkdirAll p; CallLstat linkFile] ++ rm
                     ++ [CallSymlink (logFile_of env) linkFile; CallOpenFile hourly]).
  { pose proof (Init_calls_split env sb) as H. rewrite HI in H.
    cbn [fst snd] in H. rewrite H, Hmade. subst sb.
    rewrite before_reinit_calls, Hfa. by rewrite <- !app_assoc. }
  assert (HW : r = (Ret None,
                    (fw2, os.set_fs (<[d := Reg (c +:+ msg)]> (fs w2))
                            (os.record (CallWrite (fd fw2) msg) w2)))).
  { subst r. rewrite Write_run. unfold checkFile_run. fold sa. rewrite Hfa.
    unfold hourlyTicker.pending. rewrite Hst. fold sb.
    rewrite <- Init_eq, HI. cbn [fst snd]. rewrite Hfd.
    by rewrite (os_Write_at env (mkFile i hourly false) msg w2 d c eq_refl Hf Hd Hc). }
  exists i, d, c, rm. rewrite HW. cbn [fst snd os.set_fs os.record fs calls].
  split; [reflexivity |]. split; [exact Hfd |]. split; [exact Ht |].
  split; [exact Hd |].
  split.
  { intros Hn. rewrite (resolve_links_here _ _ Hn) in Hd. by injection Hd. }
  split; [exact Hc |]. split; [reflexivity |]. split; [exact Hrm |].
  apply made_app. cbn [calls os.set_fs os.record]. rewrite Hcalls, Hfd.
  by rewrite <- !app_assoc.
Qed.

(** X8: a Write that finds the boundary event pending, whose Init returns
    nil and that meets no write error, syncs and closes the old
    descriptor, runs Init and only then writes: it returns nil, the
    writer holds a fresh open descriptor opened with the hourly path
    named after the time of this Write (not the time of the tick), the
    message is appended to the file that path leads to (the path itself
    unless a link is there, which OpenFile follows), and the goroutine
    of the ticker is back in its select with the hour of the tick it had
    sent. *)
Theorem rotation_writes_to_file_of_current_hour LE env fw w msg lvl tm h fw2 w2 :
  hourlyTicker.state (ticker fw) = hourlyTicker.Sending tm h ->
  Init env (before_reinit env (after_alert LE msg lvl (fw, w)))
  = (Ret None, (fw2, w2)) ->
  write_fault env = None ->
  let p := resolve env (filepath fw) in
  let hourly := filepath.Join [p; logFile_of env] in
  let linkFile := filepath.Join [p; "text.log"] in
  let r := Write LE env msg lvl (fw, w) in
  exists i d c rm,
    fst r = Ret None
    /\ fd (fst (snd r)) = Some (mkFile i hourly false)
    /\ ticker (fst (snd r))
       = hourlyTicker.mk (hourlyTicker.Selecting (Time.Hour tm))
           (hourlyTicker.quit_closed (ticker fw))
    /\ os.resolve_links (fs w2) hourly = Some d
    /\ ((forall t, fs w2 !! hourly <> Some (Lnk t)) -> d = hourly)
    /\ fs w2 !! d = Some (Reg c)
    /\ fs (snd (snd r)) = <[d := Reg (c +:+ msg)]> (fs w2)
    /\ (rm = [] \/ rm = [CallRemove linkFile])
    /\ made (snd (after_alert LE msg lvl (fw, w))) (snd (snd r))
       = [CallSync (fd fw); CallClose (fd fw); CallMkdirAll p; CallLstat linkFile]
         ++ rm
         ++ [CallSymlink (logFile_of env) linkFile; CallOpenFile hourly;
             CallWrite (Some (mkFile i hourly false)) msg].
Proof. apply Write_rotation_ok. Qed.

Lemma rotation_writes_to_file_of_current_hour_witness :
  let env := Sample.env_at (Sample.at_ 17 30 0) in
  let r := Write 4%Z env "late" 0%Z Scenario.at_boundary in
  fst r = Ret None
  /\ ticker (fst (snd r))
     = hourlyTicker.mk (hourlyTicker.Selecting 15) false.
Proof.
  intros env r.
  destruct (rotation_writes_to_file_of_current_hour 4%Z env
              (fst Scenario.at_boundary) (snd Scenario.at_boundary) "late" 0%Z
              (Sample.at_ 15 0 0) 14
              (fst (snd (Init env (before_reinit env Scenario.at_boundary))))
              (snd (snd (Init env (before_reinit env Scenario.at_boundary))))
              eq_refl ltac:(vm_compute; reflexivity) eq_refl)
    as (i & d & c & rm & H1 & _ & H3 & _).
  split; [exact H1 | exact H3].
Defined.

(** ** Severity and stored level do not gate the write path *)

Lemma same_files_record c1 c2 w1 w2 :
  same_files w1 w2 -> same_files (os.record c1 w1) (os.record c2 w2).
Proof. intros [H1 H2]. by split. Qed.

Ltac same_files_op :=
  intros [Hf Hn]; unfold same_files in *;
  cbn [os.record fs next_fid]; rewrite ?Hf, ?Hn;
  repeat case_match; cbn [fst snd fs next_fid os.set_fs os.record];
  try rewrite ?Hf, ?Hn; auto.

Lemma MkdirAll_same env p w1 w2 :
  same_files w1 w2 ->
  fst (os.MkdirAll env p w1) = fst (os.MkdirAll env p w2)
  /\ same_files (snd (os.MkdirAll env p w1)) (snd (os.MkdirAll env p w2)).
Proof. unfold os.MkdirAll. same_files_op. Qed.

Lemma Lstat_same env p w1 w2 :
  same_files w1 w2 ->
  fst (os.Lstat env p w1) = fst (os.Lstat env p w2)
  /\ same_files (snd (os.Lstat env p w1)) (snd (os.Lstat env p w2)).
Proof. unfold os.Lstat. same_files_op. Qed.

Lemma Remove_same env p w1 w2 :
  same_files w1 w2 ->
  same_files (snd (os.Remove env p w1)) (snd (os.Remove env p w2)).
Proof. unfold os.Remove. same_files_op. Qed.

Lemma Symlink_same env t p w1 w2 :
  same_files w1 w2 ->
  same_files (snd (os.Symlink env t p w1)) (snd (os.Symlink env t p w2)).
Proof. unfold os.Symlink. same_files_op. Qed.

Lemma OpenFile_same env p w1 w2 :
  same_files w1 w2 ->
  fst (os.OpenFile env p w1) = fst (os.OpenFile env p w2)
  /\ same_files (snd (os.OpenFile env p w1)) (snd (os.OpenFile env p w2)).
Proof. unfold os.OpenFile. same_files_op. Qed.

Lemma os_Write_same env f data w1 w2 :
  same_files w1 w2 ->
  fst (os.Write env f data w1) = fst (os.Write env f data w2)
  /\ same_files (snd (os.Write env f data w1)) (snd (os.Write env f data w2)).
Proof. unfold os.Write. same_files_op. Qed.

Lemma relink_same env l w1 w2 :
  same_files w1 w2 -> same_files (relink env l w1) (relink env l w2).
Proof.
  intros H. unfold relink.
  destruct (Lstat_same env l w1 w2 H) as [He Hs].
  destruct (os.Lstat env l w1) as [e1 w1'], (os.Lstat env l w2) as [e2 w2'].
  cbn [fst snd] in *. subst e2.
  apply Symlink_same.
  destruct (match e1 with Some e => IsExist e | None => true end);
    [by apply Remove_same | exact Hs].
Qed.

Lemma Init_run_same env fw w1 w2 :
  same_files w1 w2 ->
  fst (Init_run env (fw, w1)) = fst (Init_run env (fw, w2))
  /\ fst (snd (Init_run env (fw, w1))) = fst (snd (Init_run env (fw, w2)))
  /\ same_files (snd (snd (Init_run env (fw, w1))))
       (snd (snd (Init_run env (fw, w2)))).
Proof.
  intros H. unfold Init_run. cbn [fst snd].
  destruct (MkdirAll_same env (resolve env (filepath fw)) w1 w2 H) as [He Hs].
  destruct (os.MkdirAll env _ w1) as [e1 w1'], (os.MkdirAll env _ w2) as [e2 w2'].
  cbn [fst snd] in *. subst e2.
  destruct e1 as [e|];
    [cbn [fst snd]; split; [reflexivity | split; [reflexivity | exact Hs]] |].
  pose proof (relink_same env
                (filepath.Join [resolve env (filepath fw); "text.log"])
                w1' w2' Hs) as Hr.
  destruct (OpenFile_same env
              (filepath.Join [resolve env (filepath fw); logFile_of env])
              _ _ Hr) as [Ho Hso].
  destruct (os.OpenFile env _ (relink env _ w1')) as [r1 w1''],
           (os.OpenFile env _ (relink env _ w2')) as [r2 w2''].
  cbn [fst snd] in *. subst r2.
  destruct r1; cbn [fst snd];
    (split; [reflexivity | split; [reflexivity | exact Hso]]).
Qed.

Lemma before_reinit_same env fw w1 w2 :
  same_files w1 w2 ->
  fst (before_reinit env (fw, w1)) = fst (before_reinit env (fw, w2))
  /\ same_files (snd (before_reinit env (fw, w1)))
       (snd (before_reinit env (fw, w2))).
Proof.
  intros H. unfold before_reinit. rewrite !os_Close_run. cbn [fst snd].
  split; [reflexivity |]. apply same_files_record.
  unfold os.Sync. destruct (os.usable _); by apply same_files_record.
Qed.

Lemma Write_same LE env msg l1 l2 fw w :
  let r1 := Write LE env msg l1 (fw, w) in
  let r2 := Write LE env msg l2 (fw, w) in
  fst r1 = fst r2 /\ fst (snd r1) = fst (snd r2)
  /\ same_files (snd (snd r1)) (snd (snd r2)).
Proof.
  intros r1 r2. subst r1 r2. rewrite !Write_run. unfold checkFile_run.
  rewrite !after_alert_fst. cbn [fst].
  assert (Ha : same_files (snd (after_alert LE msg l1 (fw, w)))
                          (snd (after_alert LE msg l2 (fw, w)))).
  { unfold after_alert.
    destruct (LE <=? l1)%Z, (LE <=? l2)%Z; cbn [fst snd]; by split. }
  assert (E1 : after_alert LE msg l1 (fw, w)
               = (fw, snd (after_alert LE msg l1 (fw, w)))).
  { rewrite <- (after_alert_fst LE msg l1 (fw, w)) at 2.
    by destruct (after_alert LE msg l1 (fw, w)). }
  assert (E2 : after_alert LE msg l2 (fw, w)
               = (fw, snd (after_alert LE msg l2 (fw, w)))).
  { rewrite <- (after_alert_fst LE msg l2 (fw, w)) at 2.
    by destruct (after_alert LE msg l2 (fw, w)). }
  rewrite E1, E2. clear E1 E2.
  set (w1 := snd (after_alert LE msg l1 (fw, w))) in *.
  set (w2 := snd (after_alert LE msg l2 (fw, w))) in *.
  destruct (hourlyTicker.pending (ticker fw)).
  - destruct (before_reinit_same env fw w1 w2 Ha) as [Hb Hbs].
    destruct (before_reinit env (fw, w1)) as [fb wb1],
             (before_reinit env (fw, w2)) as [fb2 wb2].
    cbn [fst snd] in *. subst fb2.
    destruct (Init_run_same env fb wb1 wb2 Hbs) as (Hr & Hfw & Hs).
    destruct (Init_run env (fb, wb1)) as [o1 [f1 x1]],
             (Init_run env (fb, wb2)) as [o2 [f2 x2]].
    cbn [fst snd] in *. subst o2 f2.
    destruct o1 as [r|e]; cbn [fst snd];
      [| split; [reflexivity | split; [reflexivity | exact Hs]]].
    destruct (os_Write_same env (fd f1) msg x1 x2 Hs) as [Hw Hws].
    split; [by rewrite Hw |]. by split.
  - cbn [fst snd].
    destruct (os_Write_same env (fd fw) msg w1 w2 Ha) as [Hw Hws].
    split; [by rewrite Hw |]. by split.
Qed.

Lemma Write_upd_level LE env msg lvl l fw w :
  Write LE env msg lvl (upd_level l fw, w)
  = (fst (Write LE env msg lvl (fw, w)),
     (upd_level l (fst (snd (Write LE env msg lvl (fw, w)))),
      snd (snd (Write LE env msg lvl (fw, w))))).
Proof.
  rewrite !Write_run. unfold checkFile_run, after_alert.
  destruct (LE <=? lvl)%Z; cbn [fst snd ticker upd_level url slack alert_of
                                Username Channel];
    (destruct (hourlyTicker.pending (ticker fw)); [| reflexivity]);
    unfold before_reinit; rewrite !os_Close_run;
    cbn [fst snd ticker upd_level upd_ticker upd_fd fd filepath level url slack];
    unfold Init_run;
    cbn [fst snd ticker upd_level upd_ticker upd_fd fd filepath level url slack];
    repeat (match goal with
            | |- context [match ?x with _ => _ end] =>
                lazymatch x with
                | context [match _ with _ => _ end] => fail
                | _ => destruct x
                end
            end;
            cbn [fst snd ticker upd_level upd_ticker upd_fd upd_filepath fd
                 filepath level url slack]);
    reflexivity.
Qed.

(** X9: the severity of a message and the level stored by SetLevel
    decide nothing on the write path: for any two severities Write ends
    the same way, leaves the same writer and the same files (only the
    alert differs), and with another stored level it ends the same way
    with the same files and the same writer but for that level. *)
Theorem Write_path_ignores_severity_and_level LE env msg l1 l2 l fw w :
  let r1 := Write LE env msg l1 (fw, w) in
  let r2 := Write LE env msg l2 (fw, w) in
  let r3 := Write LE env msg l1 (upd_level l fw, w) in
  fst r1 = fst r2 /\ fst (snd r1) = fst (snd r2)
  /\ fs (snd (snd r1)) = fs (snd (snd r2))
  /\ fst r3 = fst r1 /\ fst (snd r3) = upd_level l (fst (snd r1))
  /\ snd (snd r3) = snd (snd r1).
Proof.
  intros r1 r2 r3.
  destruct (Write_same LE env msg l1 l2 fw w) as (H1 & H2 & H3 & _).
  subst r3. rewrite Write_upd_level. by repeat split.
Qed.

(** ** The ticker seen from [Write] *)

Lemma Write_ticker LE env msg lvl s :
  ticker (fst (snd (Write LE env msg lvl s)))
  = snd (hourlyTicker.receive (ticker (fst s))).
Proof.
  rewrite Write_run. unfold checkFile_run. rewrite after_alert_fst.
  destruct (hourlyTicker.pending (ticker (fst s))) eqn:Hp.
  - pose proof (Init_ticker env (before_reinit env (after_alert LE msg lvl s))) as H.
    rewrite Init_eq, before_reinit_ticker, after_alert_fst in H.
    by destruct (Init_run env _) as [[r|e] s2].
  - cbn [fst snd]. rewrite after_alert_fst.
    unfold hourlyTicker.receive. unfold hourlyTicker.pending in Hp.
    by destruct (hourlyTicker.state (ticker (fst s))).
Qed.

Lemma Write_after_late_event LE env fw w msg lvl tm h tm2 :
  hourlyTicker.state (ticker fw) = hourlyTicker.Sending tm h ->
  let s1 := snd (Write LE env msg lvl (fw, w)) in
  let s2 := background [hourlyTicker.Tick tm2] s1 in
  hourlyTicker.state (ticker (fst s1)) = hourlyTicker.Selecting (Time.Hour tm)
  /\ hourlyTicker.state (ticker (fst s2))
     = (if (Time.Hour tm2 =? Time.Hour tm)%nat
        then hourlyTicker.Selecting (Time.Hour tm)
        else hourlyTicker.Sending tm2 (Time.Hour tm)).
Proof.
  intros Hst s1 s2.
  assert (Ht : ticker (fst s1)
               = hourlyTicker.mk (hourlyTicker.Selecting (Time.Hour tm))
                   (hourlyTicker.quit_closed (ticker fw))).
  { subst s1. rewrite Write_ticker. cbn [fst].
    unfold hourlyTicker.receive. by rewrite Hst. }
  split; [by rewrite Ht |].
  subst s2. unfold background. rewrite Ht.
  cbn [hourlyTicker.run hourlyTicker.step hourlyTicker.state].
  by destruct (Time.Hour tm2 =? Time.Hour tm)%nat.
Qed.

(** X10: the goroutine of the ticker compares each tick with the hour
    of the event it sent last, not with the time at which that event was
    received.  After a Write has received the event of a tick tm, the
    goroutine tracks the hour of tm: the next tick raises a new event,
    and the next Write rotates again, exactly when its hour differs from
    the hour of tm; so a Write that receives an event more than an hour
    late is followed by a second rotation. *)
Theorem rotation_after_a_late_event LE env fw w msg lvl tm h tm2 :
  hourlyTicker.state (ticker fw) = hourlyTicker.Sending tm h ->
  let s1 := snd (Write LE env msg lvl (fw, w)) in
  let s2 := background [hourlyTicker.Tick tm2] s1 in
  hourlyTicker.state (ticker (fst s1)) = hourlyTicker.Selecting (Time.Hour tm)
  /\ hourlyTicker.state (ticker (fst s2))
     = (if (Time.Hour tm2 =? Time.Hour tm)%nat
        then hourlyTicker.Selecting (Time.Hour tm)
        else hourlyTicker.Sending tm2 (Time.Hour tm)).
Proof. apply Write_after_late_event. Qed.

Lemma rotation_after_a_late_event_witness :
  let s1 := snd (Write 4%Z (Sample.env_at (Sample.at_ 17 30 0)) "late" 0%Z
                   (fst Scenario.at_boundary, snd Scenario.at_boundary)) in
  let s2 := background [hourlyTicker.Tick (Sample.at_ 17 30 1)] s1 in
  hourlyTicker.state (ticker (fst s2))
  = hourlyTicker.Sending (Sample.at_ 17 30 1) 15.
Proof.
  intros s1 s2.
  exact (proj2 (rotation_after_a_late_event 4%Z
                  (Sample.env_at (Sample.at_ 17 30 0))
                  (fst Scenario.at_boundary) (snd Scenario.at_boundary)
                  "late" 0%Z (Sample.at_ 15 0 0) 14 (Sample.at_ 17 30 1)
                  eq_refl)).
Defined.

Lemma background_returned es s :
  hourlyTicker.state (ticker (fst s)) = hourlyTicker.Returned ->
  ticker (fst (background es s)) = ticker (fst s).
Proof.
  intros Hst. unfold background.
  destruct es as [|e es]; cbn [hourlyTicker.run]; [by destruct s as [[] ?] |].
  unfold hourlyTicker.step. rewrite Hst. by destruct e.
Qed.

Lemma Write_after_return LE env msg lvl es s :
  hourlyTicker.state (ticker (fst s)) = hourlyTicker.Returned ->
  let s' := background es s in
  checkFile env (after_alert LE msg lvl s') = (Ret tt, after_alert LE msg lvl s')
  /\ fst (snd (Write LE env msg lvl s')) = fst s'
  /\ hourlyTicker.state (ticker (fst (snd (Write LE env msg lvl s'))))
     = hourlyTicker.Returned.
Proof.
  intros Hst s'.
  assert (Ht : ticker (fst s') = ticker (fst s)) by (by apply background_returned).
  assert (Hp : hourlyTicker.pending (ticker (fst s')) = false).
  { rewrite Ht. unfold hourlyTicker.pending. by rewrite Hst. }
  destruct (Write_idle LE env msg lvl s' Hp) as [Hc Hf].
  split; [exact Hc |]. split; [exact Hf |]. by rewrite Hf, Ht.
Qed.

(** X11: once the goroutine of the ticker has returned (it took the quit
    case after stop), no boundary event is ever raised again: whatever
    ticks follow, every later Write finds none, keeps the descriptor and
    the file it has, and leaves the goroutine returned; the writer never
    rotates again. *)
Theorem no_rotation_after_the_ticker_returned LE env msg lvl es s :
  hourlyTicker.state (ticker (fst s)) = hourlyTicker.Returned ->
  let s' := background es s in
  checkFile env (after_alert LE msg lvl s') = (Ret tt, after_alert LE msg lvl s')
  /\ fst (snd (Write LE env msg lvl s')) = fst s'
  /\ hourlyTicker.state (ticker (fst (snd (Write LE env msg lvl s'))))
     = hourlyTicker.Returned.
Proof. apply Write_after_return. Qed.

Lemma no_rotation_after_the_ticker_returned_witness :
  let stopped :=
    (upd_ticker (snd (hourlyTicker.stop (ticker (fst Scenario.opened))))
       (fst Scenario.opened), snd Scenario.opened) in
  let s := background [hourlyTicker.Quit] stopped in
  let s' := background [hourlyTicker.Tick (Sample.at_ 15 0 0)] s in
  fst (snd (Write 4%Z (Sample.env_at (Sample.at_ 15 0 1)) "on" 0%Z s')) = fst s'.
Proof.
  intros stopped s s'.
  exact (proj1 (proj2 (no_rotation_after_the_ticker_returned 4%Z
                         (Sample.env_at (Sample.at_ 15 0 1)) "on" 0%Z
                         [hourlyTicker.Tick (Sample.at_ 15 0 0)] s
                         ltac:(vm_compute; reflexivity)))).
Defined.

(** ** One file name for each hour *)

Lemma append_inj_len (a1 a2 b1 b2 : string) :
  String.length a1 = String.length a2 ->
  a1 +:+ b1 = a2 +:+ b2 -> a1 = a2 /\ b1 = b2.
Proof.
  revert a2. induction a1 as [|x a1 IH]; intros [|y a2] Hl H;
    try discriminate; [by split |].
  rewrite !TimeFacts.append_cons in H. injection H as -> H.
  injection Hl as Hl. destruct (IH a2 Hl H) as [-> ->]. by split.
Qed.

Lemma same_hour_fields a b :
  Time.same_hour a b = true
  <-> Time.year a = Time.year b /\ Time.month a = Time.month b
      /\ Time.day a = Time.day b /\ Time.hour a = Time.hour b.
Proof.
  unfold Time.same_hour. rewrite !andb_true_iff, !Nat.eqb_eq. tauto.
Qed.

Lemma logFile_same_hour e1 e2 :
  Time.valid (now e1) = true -> Time.valid (now e2) = true ->
  (logFile_of e1 = logFile_of e2 <-> Time.same_hour (now e1) (now e2) = true).
Proof.
  intros Hv1 Hv2. rewrite same_hour_fields. split.
  - destruct (logFile_shape e1 Hv1)
      as (y1 & m1 & d1 & h1 & -> & (Ly1 & Lm1 & Ld1 & Lh1) & Py1 & Pm1 & Pd1 & Ph1 & _).
    destruct (logFile_shape e2 Hv2)
      as (y2 & m2 & d2 & h2 & -> & (Ly2 & Lm2 & Ld2 & Lh2) & Py2 & Pm2 & Pd2 & Ph2 & _).
    intros H.
    apply (append_inj_len "text_" "text_") in H as [_ H]; [| reflexivity].
    apply append_inj_len in H as [-> H]; [| congruence].
    apply (append_inj_len "-" "-") in H as [_ H]; [| reflexivity].
    apply append_inj_len in H as [-> H]; [| congruence].
    apply (append_inj_len "-" "-") in H as [_ H]; [| reflexivity].
    apply append_inj_len in H as [-> H]; [| congruence].
    apply (append_inj_len "_" "_") in H as [_ H]; [| reflexivity].
    apply append_inj_len in H as [-> _]; [| congruence].
    repeat split; congruence.
  - intros (Hy & Hm & Hd & Hh). unfold logFile_of, Time.Format_date_hour.
    by rewrite Hy, Hm, Hd, Hh.
Qed.

(** X12: the name Init gives to the hourly file identifies the calendar
    hour: for two readings of the clock (both with a year of at most
    four digits), the names text_YYYY-MM-DD_HH.log are equal exactly
    when year, month, day and hour are equal (minutes and seconds play
    no part). *)
Theorem hourly_file_name_identifies_the_hour e1 e2 :
  Time.valid (now e1) = true -> Time.valid (now e2) = true ->
  (logFile_of e1 = logFile_of e2 <-> Time.same_hour (now e1) (now e2) = true).
Proof. apply logFile_same_hour. Qed.

Lemma hourly_file_name_identifies_the_hour_witness :
  logFile_of (Sample.env_at (Sample.at_ 14 0 0))
  = logFile_of (Sample.env_at (Sample.at_ 14 59 59)).
Proof.
  exact (proj2 (hourly_file_name_identifies_the_hour
                  (Sample.env_at (Sample.at_ 14 0 0))
                  (Sample.env_at (Sample.at_ 14 59 59)) eq_refl eq_refl)
           eq_refl).
Defined.

(** ** Invariants over sequences of calls *)

Lemma Write_calls_posts LE env msg lvl s :
  exists d,
    calls (snd (snd (Write LE env msg lvl s))) = calls (snd s) ++ d
    /\ posts_of d = if (LE <=? lvl)%Z then [alert_of (fst s) msg] else [].
Proof.
  rewrite Write_eq.
  destruct (Write_tail_no_post env msg (after_alert LE msg lvl s)) as (d & E & Hd).
  revert E. unfold after_alert.
  destruct (LE <=? lvl)%Z; cbn [fst snd os.record calls]; intros E.
  - exists ([CallPost (url (fst s)) (snd (alert_of (fst s) msg))] ++ d). split.
    + rewrite E. by rewrite <- app_assoc.
    + rewrite posts_of_app, (posts_of_none d Hd). reflexivity.
  - exists d. split; [exact E | by apply posts_of_none].
Qed.

Lemma alert_of_config fw1 fw2 msg :
  config fw1 = config fw2 -> alert_of fw1 msg = alert_of fw2 msg.
Proof. unfold config, alert_of. intros H. by injection H as _ -> ->. Qed.

(** One step: the calls only grow, by the alert due and no other POST,
    and endpoint and identity are kept. *)
Lemma act_posts LE a s :
  exists d,
    calls (snd (act LE a s)) = calls (snd s) ++ d
    /\ posts_of d = alerts_due LE (fst s) [a]
    /\ url (fst (act LE a s)) = url (fst s)
    /\ slack (fst (act LE a s)) = slack (fst s).
Proof.
  assert (Hcfg : forall fw1 fw2 : FileWriter,
             config fw1 = config fw2 -> url fw1 = url fw2 /\ slack fw1 = slack fw2).
  { intros fw1 fw2 H. unfold config in H. by injection H as _ -> ->. }
  destruct a; cbn [act alerts_due flat_map]; rewrite ?app_nil_r.
  - destruct (Init_no_post env s) as (d & E & Hd).
    exists d. split; [exact E |]. split; [by apply posts_of_none |].
    apply Hcfg, Init_config.
  - destruct (Write_calls_posts LE env msg lvl s) as (d & E & Hd).
    exists d. split; [exact E |]. split; [exact Hd |].
    apply Hcfg, Write_config.
  - exists []. by rewrite app_nil_r.
  - destruct s as [fw w]. rewrite Flush_state.
    exists [CallSync (fd fw)]. by repeat split.
  - destruct s as [fw w]. rewrite Close_state.
    exists [CallClose (fd fw)]. by repeat split.
  - exists []. by rewrite app_nil_r.
  - exists []. by rewrite app_nil_r.
  - exists []. rewrite app_nil_r. unfold background.
    by destruct (hourlyTicker.run es (ticker (fst s))).
Qed.

Lemma alerts_due_identity LE fw1 fw2 l :
  url fw1 = url fw2 -> slack fw1 = slack fw2 ->
  alerts_due LE fw1 l = alerts_due LE fw2 l.
Proof.
  intros Hu Hs. unfold alerts_due. apply flat_map_ext. intros a.
  destruct a; try reflexivity. unfold alert_of. by rewrite Hu, Hs.
Qed.

Lemma acts_posts LE l : forall s,
  exists d,
    calls (snd (acts LE l s)) = calls (snd s) ++ d
    /\ posts_of d = alerts_due LE (fst s) l
    /\ url (fst (acts LE l s)) = url (fst s)
    /\ slack (fst (acts LE l s)) = slack (fst s).
Proof.
  induction l as [|a l IH]; intros s.
  - exists []. by rewrite app_nil_r.
  - destruct (act_posts LE a s) as (d1 & E1 & P1 & U1 & S1).
    destruct (IH (act LE a s)) as (d2 & E2 & P2 & U2 & S2).
    exists (d1 ++ d2). cbn [acts fold_left]. fold (acts LE l (act LE a s)).
    split; [rewrite E2, E1; by rewrite <- app_assoc |].
    split.
    + rewrite posts_of_app, P1, P2.
      rewrite (alerts_due_identity LE _ (fst s) l U1 S1).
      unfold alerts_due. cbn [flat_map]. by rewrite app_nil_r.
    + split; congruence.
Qed.

(** X13: over any sequence of calls of the methods (Init, Write,
    WriteToSlack, Flush, Close, SetLevel, GetLevel, in any order, with
    any environment, the ticker running meanwhile), the POSTs made are
    exactly one for each Write of a message at or above LevelError, in
    call order, each to the endpoint given to NewFileWriter, with the
    message as text and the username and channel given to
    NewFileWriter, all three as json.Marshal encodes them (every byte
    that is not part of valid UTF-8 replaced by U+FFFD, so unchanged
    when they are valid UTF-8); no other method posts, WriteToSlack
    included, and none changes endpoint or identity. *)
Theorem alerts_over_any_sequence LE l start fp name u ch w :
  let fw := NewFileWriter start fp name u ch in
  let s' := acts LE l (fw, w) in
  let body msg :=
    mkSlackMsg (utf8.coerce msg) (utf8.coerce name) (utf8.coerce ch) in
  posts_of (made w (snd s'))
  = flat_map
      (fun a =>
         match a with
         | DoWrite _ msg lvl =>
             if (LE <=? lvl)%Z then [(u, body msg)] else []
         | _ => []
         end) l
  /\ (forall msg,
        utf8.ValidString msg = true -> utf8.ValidString name = true ->
        utf8.ValidString ch = true -> body msg = mkSlackMsg msg name ch)
  /\ url (fst s') = u
  /\ slack (fst s') = mkSlackMsg "" name ch.
Proof.
  intros fw s' body.
  destruct (acts_posts LE l (fw, w)) as (d & E & P & U & S).
  fold s' in E, U, S. cbn [fst snd] in *.
  split; [| split; [| split; [exact U | exact S]]].
  - by rewrite (made_app _ _ d E), P.
  - intros msg Hm Hn Hc. subst body. cbv beta.
    by rewrite !coerce_valid.
Qed.

Lemma step_running e ht ht' :
  running ht -> hourlyTicker.step e ht = Some ht' -> running ht'.
Proof.
  intros [Hq Hs]. unfold hourlyTicker.step.
  destruct (hourlyTicker.state ht) as [h | tm h |] eqn:Est; [| discriminate..].
  destruct e as [tm |].
  - destruct (negb _); intros H; injection H as <-; split; cbn; try done.
    by rewrite Est.
  - by rewrite Hq.
Qed.

Lemma run_running es : forall ht ht',
  running ht -> hourlyTicker.run es ht = Some ht' -> running ht'.
Proof.
  induction es as [|e es IH]; intros ht ht' Hr; cbn [hourlyTicker.run].
  - intros H. by injection H as <-.
  - destruct (hourlyTicker.step e ht) as [ht1|] eqn:E; [| discriminate].
    apply IH. by apply (step_running e ht).
Qed.

Lemma receive_running ht : running ht -> running (snd (hourlyTicker.receive ht)).
Proof.
  intros [Hq Hs]. unfold hourlyTicker.receive, running.
  destruct (hourlyTicker.state ht) eqn:Est;
    cbn [snd hourlyTicker.state hourlyTicker.quit_closed];
    rewrite ?Est; split; congruence.
Qed.

Lemma act_running LE a s :
  running (ticker (fst s)) -> running (ticker (fst (act LE a s))).
Proof.
  intros Hr. destruct a; cbn [act].
  - by rewrite Init_ticker.
  - rewrite Write_ticker. by apply receive_running.
  - exact Hr.
  - destruct s as [fw w]. by rewrite Flush_state.
  - destruct s as [fw w]. by rewrite Close_state.
  - exact Hr.
  - exact Hr.
  - unfold background.
    destruct (hourlyTicker.run es (ticker (fst s))) as [ht'|] eqn:E; [| exact Hr].
    cbn [fst ticker upd_ticker]. by apply (run_running es (ticker (fst s))).
Qed.

Lemma acts_running LE l : forall s,
  running (ticker (fst s)) -> running (ticker (fst (acts LE l s))).
Proof.
  induction l as [|a l IH]; intros s Hr; [exact Hr |].
  cbn [acts fold_left]. apply IH. by apply act_running.
Qed.

(** X14: no method of the writer stops the goroutine that NewFileWriter
    starts: over any sequence of calls of Init, Write, WriteToSlack,
    Flush, Close, SetLevel and GetLevel, the quit channel stays open and
    the goroutine never returns; in particular it is still there after
    Close. *)
Theorem methods_never_stop_the_ticker LE l start fp name u ch w :
  let s' := acts LE l (NewFileWriter start fp name u ch, w) in
  hourlyTicker.quit_closed (ticker (fst s')) = false
  /\ hourlyTicker.state (ticker (fst s')) <> hourlyTicker.Returned.
Proof.
  intros s'. apply (acts_running LE l). by split.
Qed.

Lemma act_filepath LE a s :
  filepath.IsAbs (filepath (fst s)) = true ->
  filepath (fst (act LE a s)) = filepath (fst s).
Proof.
  intros Habs. destruct a; cbn [act]; try reflexivity.
  - rewrite Init_filepath. by apply resolve_abs.
  - by apply Write_filepath.
  - destruct s as [fw w]. by rewrite Flush_state.
  - destruct s as [fw w]. by rewrite Close_state.
  - unfold background. by destruct (hourlyTicker.run es (ticker (fst s))).
Qed.

Lemma acts_filepath LE l : forall s,
  filepath.IsAbs (filepath (fst s)) = true ->
  filepath (fst (acts LE l s)) = filepath (fst s).
Proof.
  induction l as [|a l IH]; intros s Habs; [reflexivity |].
  cbn [acts fold_left]. fold (acts LE l (act LE a s)).
  pose proof (act_filepath LE a s Habs) as H.
  rewrite IH; [exact H | by rewrite H].
Qed.

(** X15: a base directory that is stored absolute is never changed
    again: over any sequence of calls of the methods (rotations and
    further Inits included, whatever the working directory is by then)
    the stored path stays the same, so all the hourly files and the
    alias of one writer are in one directory. *)
Theorem absolute_base_directory_is_kept LE l (s : State) :
  filepath.IsAbs (filepath (fst s)) = true ->
  filepath (fst (acts LE l s)) = filepath (fst s).
Proof. apply acts_filepath. Qed.

Lemma absolute_base_directory_is_kept_witness :
  filepath
    (fst (acts 4%Z
            [DoWrite Sample.env "a" 0%Z;
             Meanwhile [hourlyTicker.Tick (Sample.at_ 15 0 0)];
             DoWrite (Sample.env_no_cwd (Sample.at_ 15 0 1)) "b" 5%Z;
             DoClose Sample.env]
            Scenario.opened))
  = filepath (fst Scenario.opened).
Proof.
  exact (absolute_base_directory_is_kept 4%Z _ Scenario.opened
           ltac:(vm_compute; reflexivity)).
Defined.

(** ** A rotation that fails *)

Lemma Init_run_failure_fd env s :
  fst (Init_run env s) <> Ret None ->
  fd (fst (snd (Init_run env s))) = fd (fst s).
Proof.
  unfold Init_run.
  destruct (os.MkdirAll env _ (snd s)) as [[e|] w1]; [reflexivity |].
  destruct (os.OpenFile env _ _) as [[e|f] w5]; [reflexivity |].
  intros H. by destruct H.
Qed.

Lemma Write_failed_rotation LE env env' fw w msg lvl msg' lvl' tm h :
  hourlyTicker.state (ticker fw) = hourlyTicker.Sending tm h ->
  fst (Init env (before_reinit env (after_alert LE msg lvl (fw, w)))) <> Ret None ->
  let s1 := snd (Write LE env msg lvl (fw, w)) in
  let r2 := Write LE env' msg' lvl' s1 in
  fd (fst s1) = closed_fd (fd fw)
  /\ fst (Write LE env msg lvl (fw, w)) <> Ret None
  /\ hourlyTicker.pending (ticker (fst s1)) = false
  /\ fst r2 = Ret (Some (closed_error (fd fw)))
  /\ fst (snd r2) = fst s1
  /\ fs (snd (snd r2)) = fs (snd s1)
  /\ made (snd s1) (snd (snd r2))
     = (if (LE <=? lvl')%Z
        then [CallPost (url (fst s1)) (snd (alert_of (fst s1) msg'))]
        else [])
       ++ [CallWrite (closed_fd (fd fw)) msg'].
Proof.
  intros Hst HI s1 r2. rewrite Init_eq in HI.
  assert (Hfd : fd (fst s1) = closed_fd (fd fw)).
  { subst s1. rewrite Write_run. unfold checkFile_run.
    rewrite after_alert_fst. cbn [fst]. unfold hourlyTicker.pending. rewrite Hst.
    pose proof (Init_run_failure_fd env _ HI) as H.
    rewrite before_reinit_fd, after_alert_fst in H. cbn [fst] in H.
    by destruct (Init_run env _) as [[r|e] s2]. }
  assert (Hu : os.usable (fd (fst s1)) = inl (closed_error (fd fw)))
    by (rewrite Hfd; apply usable_closed_fd).
  split; [exact Hfd |]. split.
  - destruct (Init_run env (before_reinit env (after_alert LE msg lvl (fw, w))))
      as [[[e|]|e] s2] eqn:E; cbn [fst] in HI.
    + rewrite <- Init_eq in E.
      assert (Hp : hourlyTicker.pending (ticker fw) = true)
        by (unfold hourlyTicker.pending; by rewrite Hst).
      destruct (Write_reinit_failed LE env fw w msg lvl e s2 Hp E) as (_ & _ & HW).
      rewrite HW. discriminate.
    + by destruct HI.
    + rewrite Write_run. unfold checkFile_run.
      rewrite after_alert_fst. cbn [fst]. unfold hourlyTicker.pending.
      rewrite Hst, E. discriminate.
  - assert (Hp : hourlyTicker.pending (ticker (fst s1)) = false).
    { subst s1. rewrite Write_ticker. cbn [fst].
      unfold hourlyTicker.receive, hourlyTicker.pending. by rewrite Hst. }
    split; [exact Hp |]. subst r2.
    destruct s1 as [fw1 w1]. cbn [fst snd] in *.
    rewrite (Write_unusable_idle LE env' fw1 w1 msg' lvl' _ Hp Hu).
    cbn [fst snd os.record fs]. rewrite after_alert_fs, Hfd.
    split; [reflexivity |]. split; [reflexivity |]. split; [reflexivity |].
    apply made_app. unfold after_alert. cbn [fst snd calls].
    destruct (LE <=? lvl')%Z; cbn [snd os.record calls];
      by rewrite <- ?app_assoc.
Qed.

(** X16: when a Write triggers a rotation and Init does not return nil
    (it returns an error, or panics), the writer is left with the
    descriptor the rotation closed and with no event pending, and that
    Write does not return nil.  A Write that follows directly (the
    goroutine of the ticker having taken no tick in between) does not
    try to open a file again: whatever the system answers then, it
    returns the error of the closed descriptor, leaves the writer and
    the files as they are, and makes no call but the alert that is due
    and the refused write. *)
Theorem failed_rotation_leaves_the_writer_closed
    LE env env' fw w msg lvl msg' lvl' tm h :
  hourlyTicker.state (ticker fw) = hourlyTicker.Sending tm h ->
  fst (Init env (before_reinit env (after_alert LE msg lvl (fw, w)))) <> Ret None ->
  let s1 := snd (Write LE env msg lvl (fw, w)) in
  let r2 := Write LE env' msg' lvl' s1 in
  fd (fst s1) = closed_fd (fd fw)
  /\ fst (Write LE env msg lvl (fw, w)) <> Ret None
  /\ hourlyTicker.pending (ticker (fst s1)) = false
  /\ fst r2 = Ret (Some (closed_error (fd fw)))
  /\ fst (snd r2) = fst s1
  /\ fs (snd (snd r2)) = fs (snd s1)
  /\ made (snd s1) (snd (snd r2))
     = (if (LE <=? lvl')%Z
        then [CallPost (url (fst s1)) (snd (alert_of (fst s1) msg'))]
        else [])
       ++ [CallWrite (closed_fd (fd fw)) msg'].
Proof. apply Write_failed_rotation. Qed.

Lemma failed_rotation_leaves_the_writer_closed_witness :
  let env := Sample.env_no_mkdir (Sample.at_ 15 0 1) in
  let s1 := snd (Write 4%Z env "x" 0%Z
                   (fst Scenario.at_boundary, snd Scenario.at_boundary)) in
  fst (Write 4%Z (Sample.env_at (Sample.at_ 15 0 2)) "y" 0%Z s1)
  = Ret (Some ErrClosed).
Proof.
  intros env s1.
  destruct (failed_rotation_leaves_the_writer_closed 4%Z env
              (Sample.env_at (Sample.at_ 15 0 2))
              (fst Scenario.at_boundary) (snd Scenario.at_boundary)
              "x" 0%Z "y" 0%Z (Sample.at_ 15 0 0) 14 eq_refl
              ltac:(vm_compute; discriminate))
    as (_ & _ & _ & H & _).
  exact H.
Defined.

(** ** One boundary event, one rotation *)

Lemma receive_not_pending ht :
  hourlyTicker.pending (snd (hourlyTicker.receive ht)) = false.
Proof.
  unfold hourlyTicker.receive, hourlyTicker.pending.
  destruct (hourlyTicker.state ht) eqn:E; cbn [snd hourlyTicker.state];
    by rewrite ?E.
Qed.

(** X17: a Write consumes the boundary event it finds: after any Write,
    whatever its outcome, no event is pending, so a Write that follows
    directly (the goroutine of the ticker having taken no tick in
    between) never rotates and leaves the writer as the first left it. *)
Theorem Write_consumes_the_boundary_event LE env1 env2 m1 l1 m2 l2 (s : State) :
  let s1 := snd (Write LE env1 m1 l1 s) in
  hourlyTicker.pending (ticker (fst s1)) = false
  /\ checkFile env2 (after_alert LE m2 l2 s1) = (Ret tt, after_alert LE m2 l2 s1)
  /\ fst (snd (Write LE env2 m2 l2 s1)) = fst s1.
Proof.
  intros s1.
  assert (Hp : hourlyTicker.pending (ticker (fst s1)) = false).
  { subst s1. rewrite Write_ticker. apply receive_not_pending. }
  split; [exact Hp |]. by apply Write_idle.
Qed.

(** ** [Init] on a writer that holds a descriptor *)

Lemma MkdirAll_next_fid env p w :
  next_fid (snd (os.MkdirAll env p w)) = next_fid w.
Proof. unfold os.MkdirAll. repeat case_match; reflexivity. Qed.

Lemma relink_next_fid env l w : next_fid (relink env l w) = next_fid w.
Proof.
  unfold relink, os.Lstat, os.Remove, os.Symlink.
  repeat (case_match; simplify_eq; cbn [fst snd next_fid os.record os.set_fs] in *);
    reflexivity.
Qed.

Lemma OpenFile_next_fid env p w :
  match os.OpenFile env p w with
  | (inl _, w') => next_fid w' = next_fid w
  | (inr f, w') =>
      f = mkFile (next_fid w) p false /\ next_fid w' = S (next_fid w)
  end.
Proof.
  unfold os.OpenFile. destruct (open_fault env); [reflexivity |].
  cbn [os.record fs next_fid].
  destruct (os.resolve_links (fs w) p) as [d|]; [| reflexivity].
  by destruct (fs w !! d) as [[c|t|]|].
Qed.

Lemma Init_calls_are_Init_calls env fw w :
  forallb Init_call (made w (snd (snd (Init env (fw, w))))) = true.
Proof.
  destruct (Init_made env fw w) as [-> | (rm & [-> | ->] & ->)]; reflexivity.
Qed.

Lemma Init_fresh_descriptor env fw w :
  forallb Init_call (made w (snd (snd (Init env (fw, w))))) = true
  /\ match Init env (fw, w) with
     | (Ret None, (fw', w')) =>
         fd fw'
         = Some (mkFile (next_fid w)
                   (filepath.Join [filepath fw'; logFile_of env]) false)
         /\ next_fid w' = S (next_fid w)
     | (_, (fw', w')) => fd fw' = fd fw /\ next_fid w' = next_fid w
     end.
Proof.
  split; [apply Init_calls_are_Init_calls |].
  rewrite Init_eq. unfold Init_run. cbn [fst snd].
  pose proof (MkdirAll_next_fid env (resolve env (filepath fw)) w) as HM.
  destruct (os.MkdirAll env _ w) as [[e|] w1]; cbn [snd] in HM; [by split |].
  pose proof (relink_next_fid env
                (filepath.Join [resolve env (filepath fw); "text.log"]) w1) as HR.
  pose proof (OpenFile_next_fid env
                (filepath.Join [resolve env (filepath fw); logFile_of env])
                (relink env
                   (filepath.Join [resolve env (filepath fw); "text.log"]) w1))
    as HO.
  destruct (os.OpenFile env _ _) as [[e|f] w5];
    cbn [fd upd_fd upd_filepath filepath].
  - split; [reflexivity | congruence].
  - destruct HO as [-> HO]. split; [congruence | congruence].
Qed.

(** X18: Init by itself never closes, syncs or writes to the descriptor
    the writer holds: its calls are among MkdirAll, Lstat, Remove,
    Symlink and OpenFile.  When it returns nil the writer holds a file
    opened by this very call, whatever it held before; when it returns
    an error or panics the descriptor is the one the writer had.  So an
    Init on a writer whose file is open (outside a rotation, which
    closes it first) leaves that file open with nothing referring to
    it. *)
Theorem Init_never_closes_the_old_descriptor env fw w :
  forallb Init_call (made w (snd (snd (Init env (fw, w))))) = true
  /\ match Init env (fw, w) with
     | (Ret None, (fw', w')) =>
         fd fw'
         = Some (mkFile (next_fid w)
                   (filepath.Join [filepath fw'; logFile_of env]) false)
         /\ next_fid w' = S (next_fid w)
     | (_, (fw', w')) => fd fw' = fd fw /\ next_fid w' = next_fid w
     end.
Proof. apply Init_fresh_descriptor. Qed.
